(** * WiFi-Spectrum-Suite: the resilient ingestion and date-repair engine

    A shallow embedding of the ingestion and repair code of the three
    scripts [depurador_csv.py], [Analisis_Interferencias.py] and
    [WiFi_Wardriving.py], followed by the properties of it that the
    specification states.

    Conventions of the embedding.
    - Python [str] values are [text], lists of characters.  A character is a
      code point below 256; the whitespace and decimal-digit classes are
      Python's classes restricted to that range.  [upper] and [lower] change
      the ASCII letters only: on the remaining code points of the range
      Python's case mappings never produce an ASCII letter, and the sources
      compare the converted text with ASCII literals only.
    - A file is the text obtained by decoding it ([errors='ignore']); a file
      that cannot be opened is [None].
    - A function that may raise returns a [result]; what it prints is
      returned next to it as a list of messages.
    - pandas is not part of the repository: its number parser and
      [read_csv] are parameters of the development.
    - [strftime] renders the year zero-filled to four digits, as the Python
      documentation of [%Y] gives it (0001 ... 9999). *)

From Stdlib Require Import String Ascii Bool Arith ZArith Lia List.
Import ListNotations.

Set Implicit Arguments.

(* ================================================================== *)
(** ** Python strings *)
(* ================================================================== *)

Module PyStr.

(** Python [str] values. *)
Abbreviation text := (list ascii) (only parsing).

Definition str (s : string) : text := list_ascii_of_string s.

(** [a == b] *)
Fixpoint text_eqb (a b : text) : bool :=
  match a, b with
  | [], [] => true
  | x :: a', y :: b' => Ascii.eqb x y && text_eqb a' b'
  | _, _ => false
  end.

Definition code (c : ascii) : nat := nat_of_ascii c.

(** [str.isspace] on one character: TAB..CR, FS..US, SPACE, NEL, NBSP. *)
Definition is_space (c : ascii) : bool :=
  let n := code c in
  ((9 <=? n) && (n <=? 13)) || ((28 <=? n) && (n <=? 32))
  || (n =? 133) || (n =? 160).

(** The decimal digits, the class [\d]. *)
Definition is_digit (c : ascii) : bool :=
  let n := code c in (48 <=? n) && (n <=? 57).

Definition upper_char (c : ascii) : ascii :=
  let n := code c in
  if (97 <=? n) && (n <=? 122) then ascii_of_nat (n - 32) else c.

Definition lower_char (c : ascii) : ascii :=
  let n := code c in
  if (65 <=? n) && (n <=? 90) then ascii_of_nat (n + 32) else c.

Definition upper (s : text) : text := map upper_char s.
Definition lower (s : text) : text := map lower_char s.

Fixpoint drop_while (p : ascii -> bool) (s : text) : text :=
  match s with
  | [] => []
  | c :: s' => if p c then drop_while p s' else s
  end.

Definition lstrip (s : text) : text := drop_while is_space s.
Definition rstrip (s : text) : text := rev (drop_while is_space (rev s)).

(** [s.strip()] *)
Definition strip (s : text) : text := rstrip (lstrip s).

(** [s.split(sep)] for a separator of one character. *)
Fixpoint split (sep : ascii) (s : text) : list text :=
  match s with
  | [] => [[]]
  | c :: s' =>
      if Ascii.eqb c sep then [] :: split sep s'
      else match split sep s' with
           | [] => [[c]]
           | f :: fs => (c :: f) :: fs
           end
  end.

(** [sep.join(fields)] for a separator of one character. *)
Fixpoint join (sep : ascii) (fs : list text) : text :=
  match fs with
  | [] => []
  | f :: fs' =>
      match fs' with
      | [] => f
      | _ :: _ => f ++ sep :: join sep fs'
      end
  end.

Fixpoint starts_with (p s : text) : bool :=
  match p, s with
  | [], _ => true
  | _ :: _, [] => false
  | a :: p', b :: s' => Ascii.eqb a b && starts_with p' s'
  end.

(** [needle in hay] *)
Fixpoint contains (needle hay : text) : bool :=
  starts_with needle hay
  || match hay with
     | [] => false
     | _ :: hay' => contains needle hay'
     end.

(** [value in list_of_strings] *)
Definition mem (v : text) (l : list text) : bool := existsb (text_eqb v) l.

Definition LF : ascii := ascii_of_nat 10.
Definition CR : ascii := ascii_of_nat 13.
Definition comma : ascii := ascii_of_nat 44.

(** Text mode with [newline=None]: "\r\n" and a lone "\r" are read as "\n". *)
Fixpoint universal_newlines (s : text) : text :=
  match s with
  | [] => []
  | c :: s' =>
      if Ascii.eqb c CR then
        match s' with
        | d :: _ => if Ascii.eqb d LF then universal_newlines s'
                    else LF :: universal_newlines s'
        | [] => [LF]
        end
      else c :: universal_newlines s'
  end.

(** The lines of a text, each with its terminator when it has one. *)
Fixpoint split_lines (s : text) : list text :=
  match s with
  | [] => []
  | c :: s' =>
      if Ascii.eqb c LF then [LF] :: split_lines s'
      else match split_lines s' with
           | [] => [[c]]
           | l :: ls => (c :: l) :: ls
           end
  end.

(** [f.readlines()] *)
Definition readlines (content : text) : list text :=
  split_lines (universal_newlines content).

(** [for line in lines: f.write(line + '\n')] *)
Definition write_lines (lines : list text) : text :=
  concat (map (fun l => l ++ [LF]) lines).

(** [int(s)] on a text of decimal digits, surrounding whitespace ignored
    (the texts [strptime] converts); [None] stands for [ValueError]. *)
Definition digit_value (c : ascii) : nat := code c - 48.

Definition int_of_text (s : text) : option nat :=
  match strip s with
  | [] => None
  | ds => if forallb is_digit ds
          then Some (fold_left (fun acc c => 10 * acc + digit_value c) ds 0)
          else None
  end.

Definition digit_char (d : nat) : ascii := ascii_of_nat (48 + d).

(** [enumerate(l, start)] *)
Fixpoint enumerate (A : Type) (start : nat) (l : list A) : list (nat * A) :=
  match l with
  | [] => []
  | x :: l' => (start, x) :: enumerate (S start) l'
  end.

(** [l[i] = v] for [i < len(l)]. *)
Fixpoint set_nth (A : Type) (i : nat) (v : A) (l : list A) : list A :=
  match l, i with
  | [], _ => []
  | _ :: l', 0 => v :: l'
  | x :: l', S i' => x :: set_nth i' v l'
  end.

End PyStr.
Import PyStr.

(** Exceptions the modelled code meets, and results of calls that may raise. *)
Inductive exn : Type :=
| ValueError | KeyError | TypeError | FileNotFoundError | ParserError.

Inductive result (A : Type) : Type :=
| Ok (a : A)
| Raise (e : exn).
Arguments Raise {A} e.


(* ================================================================== *)
(** ** The fragment of [re] used by the sources and by [strptime] *)
(* ================================================================== *)

Module Regex.

Inductive cclass : Type :=
| Lit (c : ascii)          (* one literal character *)
| Rng (lo hi : ascii)      (* [lo-hi] *)
| DigitC                   (* \d *)
| SpaceC.                  (* \s *)

Definition in_class (k : cclass) (c : ascii) : bool :=
  match k with
  | Lit a => Ascii.eqb a c
  | Rng lo hi => (code lo <=? code c) && (code c <=? code hi)
  | DigitC => is_digit c
  | SpaceC => is_space c
  end.

Inductive regex : Type :=
| Eps
| Chr (k : cclass)
| Cat (r1 r2 : regex)
| Alt (r1 r2 : regex)
| Plus (k : cclass)                 (* k+, greedy *)
| Group (name : ascii) (r : regex). (* (?P<name>r) *)

(** The captured groups of a match, and a match: the text consumed, the
    groups and the text left. *)
Definition groups := list (ascii * text).
Definition found := (text * groups * text)%type.

Fixpoint plus_matches (k : cclass) (s : text) : list found :=
  match s with
  | [] => []
  | c :: s' =>
      if in_class k c
      then map (fun '(m, g, r) => (c :: m, g, r)) (plus_matches k s')
           ++ [([c], [], s')]
      else []
  end.

(** All the ways [r] matches a prefix of [s], in the order in which a
    backtracking matcher tries them. *)
Fixpoint matches (r : regex) (s : text) : list found :=
  match r with
  | Eps => [([], [], s)]
  | Chr k =>
      match s with
      | c :: s' => if in_class k c then [([c], [], s')] else []
      | [] => []
      end
  | Cat r1 r2 =>
      flat_map (fun '(m1, g1, s1) =>
                  map (fun '(m2, g2, s2) => (m1 ++ m2, g1 ++ g2, s2))
                      (matches r2 s1))
               (matches r1 s)
  | Alt r1 r2 => matches r1 s ++ matches r2 s
  | Plus k => plus_matches k s
  | Group n r' => map (fun '(m, g, s') => (m, (n, m) :: g, s')) (matches r' s)
  end.

(** [re.match(r, s)] *)
Definition re_match (r : regex) (s : text) : option found :=
  hd_error (matches r s).

(** [re.search(r, s)] as a truth value: a match at some offset. *)
Fixpoint re_search (r : regex) (s : text) : bool :=
  match matches r s with
  | _ :: _ => true
  | [] => match s with
          | [] => false
          | _ :: s' => re_search r s'
          end
  end.

Fixpoint cats (rs : list regex) : regex :=
  match rs with
  | [] => Eps
  | r :: rs' => Cat r (cats rs')
  end.

Fixpoint alts (r : regex) (rs : list regex) : regex :=
  match rs with
  | [] => r
  | r' :: rs' => Alt r (alts r' rs')
  end.

Definition digit : regex := Chr DigitC.
Definition chr (c : ascii) : regex := Chr (Lit c).
Definition rng (lo hi : ascii) : regex := Chr (Rng lo hi).

(** [r{n}] *)
Fixpoint times (n : nat) (r : regex) : regex :=
  match n with
  | 0 => Eps
  | S n' => Cat r (times n' r)
  end.

Definition lookup (n : ascii) (g : groups) : option text :=
  option_map snd (find (fun p => Ascii.eqb (fst p) n) g).

End Regex.
Import Regex.

(* ================================================================== *)
(** ** [datetime]: [strptime] and [strftime] *)
(* ================================================================== *)

Module Datetime.

Record datetime : Type := mkDatetime {
  year : nat; month : nat; day : nat;
  hour : nat; minute : nat; second : nat
}.

Definition is_leap (y : nat) : bool :=
  (y mod 4 =? 0) && (negb (y mod 100 =? 0) || (y mod 400 =? 0)).

Definition days_in_month (y m : nat) : nat :=
  match m with
  | 2 => if is_leap y then 29 else 28
  | 4 | 6 | 9 | 11 => 30
  | _ => 31
  end.

Definition MINYEAR : nat := 1.
Definition MAXYEAR : nat := 100 * 100 - 1.

(** The checks of the [datetime] constructor. *)
Definition valid_datetime (d : datetime) : bool :=
  (MINYEAR <=? year d) && (year d <=? MAXYEAR)
  && (1 <=? month d) && (month d <=? 12)
  && (1 <=? day d) && (day d <=? days_in_month (year d) (month d))
  && (hour d <=? 23) && (minute d <=? 59) && (second d <=? 59).

Local Open Scope char_scope.

(** The regular expressions of the directives, from [_strptime.TimeRE]. *)
Definition re_d : regex :=
  Group "d" (alts (Cat (chr "3") (rng "0" "1"))
                  [Cat (rng "1" "2") digit; Cat (chr "0") (rng "1" "9");
                   rng "1" "9"; Cat (chr " ") (rng "1" "9")]).
Definition re_H : regex :=
  Group "H" (alts (Cat (chr "2") (rng "0" "3")) [Cat (rng "0" "1") digit; digit]).
Definition re_m : regex :=
  Group "m" (alts (Cat (chr "1") (rng "0" "2"))
                  [Cat (chr "0") (rng "1" "9"); rng "1" "9"]).
Definition re_M : regex :=
  Group "M" (alts (Cat (rng "0" "5") digit) [digit]).
Definition re_S : regex :=
  Group "S" (alts (Cat (chr "6") (rng "0" "1")) [Cat (rng "0" "5") digit; digit]).
Definition re_Y : regex :=
  Group "Y" (times 4 digit).

Definition directive (d : ascii) : option regex :=
  if Ascii.eqb d "d" then Some re_d
  else if Ascii.eqb d "H" then Some re_H
  else if Ascii.eqb d "m" then Some re_m
  else if Ascii.eqb d "M" then Some re_M
  else if Ascii.eqb d "S" then Some re_S
  else if Ascii.eqb d "Y" then Some re_Y
  else None.

(** [TimeRE.pattern]: a directive becomes its expression, a run of
    whitespace becomes [\s+], any other character stands for itself.
    [in_ws] tells that the previous character of the format was whitespace.
    [None]: a directive outside the six above, or a stray [%]. *)
Fixpoint pattern_from (in_ws : bool) (fmt : text) : option regex :=
  match fmt with
  | [] => Some Eps
  | c :: rest =>
      if Ascii.eqb c "%" then
        match rest with
        | d :: rest' =>
            match directive d, pattern_from false rest' with
            | Some rd, Some rr => Some (Cat rd rr)
            | _, _ => None
            end
        | [] => None
        end
      else if is_space c then
        if in_ws then pattern_from true rest
        else option_map (Cat (Plus SpaceC)) (pattern_from true rest)
      else option_map (Cat (chr c)) (pattern_from false rest)
  end.

Definition pattern (fmt : text) : option regex := pattern_from false fmt.

Definition group_int (n : ascii) (default : nat) (g : groups) : option nat :=
  match lookup n g with
  | None => Some default
  | Some s => int_of_text s
  end.

(** [datetime.strptime(data, fmt)]; [None] stands for [ValueError]. *)
Definition strptime (data fmt : text) : option datetime :=
  match pattern fmt with
  | None => None
  | Some r =>
      match re_match r data with
      | None => None                               (* does not match format *)
      | Some (_, g, rest) =>
          match rest with
          | _ :: _ => None                         (* unconverted data remains *)
          | [] =>
              match group_int "Y" 1900 g, group_int "m" 1 g, group_int "d" 1 g,
                    group_int "H" 0 g, group_int "M" 0 g, group_int "S" 0 g with
              | Some y, Some mo, Some d, Some h, Some mi, Some s =>
                  let dt := mkDatetime y mo d h mi s in
                  if valid_datetime dt then Some dt else None
              | _, _, _, _, _, _ => None
              end
          end
      end
  end.

Definition pad2 (n : nat) : text :=
  [digit_char (n / 10 mod 10); digit_char (n mod 10)].

Definition pad4 (n : nat) : text :=
  [digit_char (n / 1000 mod 10); digit_char (n / 100 mod 10);
   digit_char (n / 10 mod 10); digit_char (n mod 10)].

(** [d.strftime('%Y-%m-%d %H:%M:%S')] *)
Definition strftime (d : datetime) : text :=
  pad4 (year d) ++ "-" :: pad2 (month d) ++ "-" :: pad2 (day d) ++ " "
  :: pad2 (hour d) ++ ":" :: pad2 (minute d) ++ ":" :: pad2 (second d).

End Datetime.
Import Datetime.

(* ================================================================== *)
(** ** depurador_csv.py *)
(* ================================================================== *)

Module Depurador.

(** What the functions print, fixed banners left out. *)
Inductive msg : Type :=
| MsgTotalLines (n : nat)
| MsgTooFewLines
| MsgHeaders (headers : list text)
| MsgDateColumns (date_columns : list (nat * text))
| MsgDateSamples (date_samples : list (text * list text))
| MsgAnalysisError
| MsgCannotProceed
| MsgCorrection (line_num : nat) (original repaired : text)
| MsgProgress (line_num : nat)
| MsgRepairStats (lines corrections : nat) (columns : list text)
| MsgRepairError.

(** An entry of [problematic_lines]. *)
Record problem : Type := mkProblem {
  p_line : nat; p_column : text; p_value : text; p_reason : text
}.

Definition is_empty (s : text) : bool :=
  match s with [] => true | _ :: _ => false end.

Local Open Scope char_scope.

Definition date_patterns : list regex :=
  [ cats [times 4 digit; chr "-"; times 2 digit; chr "-"; times 2 digit];
    cats [times 2 digit; chr "/"; times 2 digit; chr "/"; times 4 digit];
    cats [times 2 digit; chr "-"; times 2 digit; chr "-"; times 4 digit];
    cats [times 4 digit; chr "/"; times 2 digit; chr "/"; times 2 digit] ].

Local Close Scope char_scope.

Definition date_keywords : list text :=
  map str ["2024"; "2025"; "2023"; "jan"; "feb"; "mar"; "apr"; "may"; "jun";
           "jul"; "aug"; "sep"; "oct"; "nov"; "dec"; "am"; "pm"]%string.

Definition looks_like_date (value : text) : bool :=
  if is_empty value || text_eqb (strip value) [] then false
  else
    let value_str := strip value in
    if existsb (fun pattern => re_search pattern value_str) date_patterns
    then true
    else if existsb (fun keyword => contains keyword (lower value_str))
                    date_keywords
    then true
    else false.

Definition non_date_values : list text :=
  map str ["WPA2"; "WPA"; "WEP"; "OPN"; "OPEN"; "UNKNOWN"; "N/A"; "NULL"]%string.

Definition formats_to_try : list text :=
  map str ["%Y-%m-%d %H:%M:%S"; "%d/%m/%Y %H:%M:%S"; "%m/%d/%Y %H:%M:%S";
           "%Y/%m/%d %H:%M:%S"; "%d-%m-%Y %H:%M:%S"; "%m-%d-%Y %H:%M:%S";
           "%Y%m%d%H%M%S"]%string.

(** The loop over [formats_to_try]: the first format that parses wins. *)
Fixpoint try_formats (value_str : text) (fmts : list text) : option text :=
  match fmts with
  | [] => None
  | fmt :: fmts' =>
      match strptime value_str fmt with
      | Some parsed_date => Some (strftime parsed_date)
      | None => try_formats value_str fmts'
      end
  end.

(** [now] is what [datetime.now()] returns during the call. *)
Definition repair_date_field (now : datetime) (value : text) : text :=
  if is_empty value || text_eqb (strip value) [] then value
  else
    let value_str := strip value in
    if text_eqb (upper value_str) (str "OPEN") then strftime now
    else if mem (upper value_str) non_date_values then strftime now
    else match try_formats value_str formats_to_try with
         | Some repaired => repaired
         | None => value_str
         end.

Definition header_keywords : list text :=
  map str ["TIME"; "DATE"; "SEEN"; "FIRST"; "LAST"]%string.

Definition is_date_header (header : text) : bool :=
  existsb (fun keyword => contains keyword (upper header)) header_keywords.

Definition find_date_columns (headers : list text) : list (nat * text) :=
  filter (fun p => is_date_header (snd p)) (enumerate 0 headers).

(** [date_samples[k].append(v)], the key created on first use. *)
Fixpoint dict_append (k v : text) (d : list (text * list text))
  : list (text * list text) :=
  match d with
  | [] => [(k, [v])]
  | (k', vs) :: d' =>
      if text_eqb k k' then (k', vs ++ [v]) :: d'
      else (k', vs) :: dict_append k v d'
  end.

Definition sampling : Type := (list (text * list text) * list problem)%type.

(** The body of the loop over [date_columns] for one sampled line. *)
Definition sample_field (line_num : nat) (fields : list text)
  (st : sampling) (col : nat * text) : sampling :=
  let '(date_samples, problematic_lines) := st in
  let '(col_idx, col_name) := col in
  if col_idx <? length fields then
    let value := nth col_idx fields [] in
    let date_samples' := dict_append col_name value date_samples in
    if negb (looks_like_date value)
    then (date_samples',
          problematic_lines
            ++ [mkProblem line_num col_name value (str "No parece fecha")])
    else (date_samples', problematic_lines)
  else st.

(** [for line_num, line in enumerate(lines[2:12], start=3)], with its
    [break]. *)
Fixpoint sample_lines (n_lines : nat) (date_columns : list (nat * text))
  (ls : list (nat * text)) (st : sampling) : sampling :=
  match ls with
  | [] => st
  | (line_num, line) :: ls' =>
      if n_lines <=? line_num then st
      else
        let fields := split comma (strip line) in
        sample_lines n_lines date_columns ls'
          (fold_left (sample_field line_num fields) date_columns st)
  end.

(** The two shapes of tuple [analyze_date_problems] returns. *)
Inductive analysis : Type :=
| Pair (headers : option (list text)) (problematic_lines : list problem)
| Triple (headers : option (list text)) (problematic_lines : list problem)
         (date_columns : list (nat * text)).

Definition analyze_date_problems (file : option text) : list msg * analysis :=
  match file with
  | None => ([MsgAnalysisError], Triple None [] [])
  | Some content =>
      let lines := readlines content in
      if length lines <? 2 then
        ([MsgTotalLines (length lines); MsgTooFewLines], Pair None [])
      else
        let headers := split comma (strip (nth 1 lines [])) in
        let date_columns := find_date_columns headers in
        let '(date_samples, problematic_lines) :=
          sample_lines (length lines) date_columns
            (enumerate 3 (firstn 10 (skipn 2 lines))) ([], []) in
        ([MsgTotalLines (length lines); MsgHeaders headers;
          MsgDateColumns date_columns; MsgDateSamples date_samples],
         Triple (Some headers) problematic_lines date_columns)
  end.

Definition repairing : Type := (list text * nat * list msg)%type.

(** The body of the loop over [date_column_indices] for one line.  [clock
    line_num col_idx] is the reading of the wall clock while that field is
    repaired. *)
Definition repair_field_step (clock : nat -> nat -> datetime) (line_num : nat)
  (st : repairing) (col_idx : nat) : repairing :=
  let '(fields, corrections_made, log) := st in
  if col_idx <? length fields then
    let original_value := nth col_idx fields [] in
    let repaired_value :=
      repair_date_field (clock line_num col_idx) original_value in
    if negb (text_eqb repaired_value original_value) then
      (set_nth col_idx repaired_value fields, S corrections_made,
       if S corrections_made <=? 5
       then log ++ [MsgCorrection line_num original_value repaired_value]
       else log)
    else st
  else st.

(** The body of the loop over the lines of the file. *)
Definition repair_line_step (clock : nat -> nat -> datetime)
  (date_column_indices : list nat) (st : repairing) (l : nat * text)
  : repairing :=
  let '(repaired_lines, corrections_made, log) := st in
  let '(line_num, line) := l in
  let original_line := strip line in
  if line_num <? 2 then (repaired_lines ++ [original_line], corrections_made, log)
  else
    let '(fields, corrections_made', log') :=
      fold_left (repair_field_step clock line_num) date_column_indices
                (split comma original_line, corrections_made, log) in
    (repaired_lines ++ [join comma fields], corrections_made',
     if (line_num mod 100 =? 0) && (0 <? line_num)
     then log' ++ [MsgProgress line_num] else log').

(** [repair_date_issues]: what is printed, and either the exception raised
    or the value returned: [Some written] when the function returns
    [output_file], [written] being the text it wrote there (the write is
    taken to succeed), [None] when it returns [None]. *)
Definition repair_date_issues (clock : nat -> nat -> datetime)
  (file : option text) : list msg * result (option text) :=
  let '(log0, a) := analyze_date_problems file in
  match a with
  | Pair _ _ => (log0, Raise ValueError)
  | Triple headers problematic_lines date_columns =>
      match headers with
      | None | Some [] => (log0 ++ [MsgCannotProceed], Ok None)
      | Some (_ :: _) =>
          match file with
          | None => (log0 ++ [MsgRepairError], Ok None)
          | Some content =>
              let lines := readlines content in
              let date_column_indices := map fst date_columns in
              let '(repaired_lines, corrections_made, log) :=
                fold_left (repair_line_step clock date_column_indices)
                          (enumerate 0 lines) ([], 0, []) in
              (log0 ++ log
                 ++ [MsgRepairStats (length repaired_lines) corrections_made
                                    (map snd date_columns)],
               Ok (Some (write_lines repaired_lines)))
          end
      end
  end.

End Depurador.
Import Depurador.

(* ================================================================== *)
(** ** The part of pandas the sources call *)
(* ================================================================== *)

Module Pandas.

(** A cell of a frame: text, a number, an integer (after [astype(int)]), a
    timestamp, or the missing value (NaN, NaT). *)
Inductive cell (number : Type) : Type :=
| CStr (s : text)
| CNum (x : number)
| CInt (z : Z)
| CTime (d : datetime)
| CNaN.
Arguments CNaN {number}.
Arguments CStr {number} s.
Arguments CInt {number} z.
Arguments CTime {number} d.

(** The conversions of single values that pandas provides.
    [parse_number s] is [None] when [pd.to_numeric(errors='coerce')] gives
    NaN for the text [s]; [number_to_int x] is [None] when [astype(int)]
    raises on [x] (a non-finite value). *)
Class Scalars : Type := {
  number : Type;
  number_of_Z : Z -> number;
  parse_number : text -> option number;
  number_to_int : number -> option Z;
  to_datetime_cell : cell number -> cell number
}.

Section Frames.
Context {P : Scalars}.

Abbreviation value := (cell number) (only parsing).

(** A frame: the column labels and the rows, each row one cell per label. *)
Record DataFrame : Type := mkFrame {
  columns : list text;
  rows : list (list value)
}.

Definition isna (c : value) : bool :=
  match c with CNaN => true | _ => false end.

(** The positions of a label among the columns. *)
Definition positions (name : text) (cols : list text) : list nat :=
  map fst (filter (fun p => text_eqb name (snd p)) (enumerate 0 cols)).

(** [name in df.columns] *)
Definition has_column (name : text) (df : DataFrame) : bool :=
  mem name (columns df).

Definition column_at (i : nat) (df : DataFrame) : list value :=
  map (fun r => nth i r CNaN) (rows df).

(** [df[name]] where a Series is expected: [KeyError] for an absent label;
    a label carried by several columns selects a frame, on which the
    conversion functions raise [TypeError]. *)
Definition get_series (name : text) (df : DataFrame) : result (list value) :=
  match positions name (columns df) with
  | [] => Raise KeyError
  | [i] => Ok (column_at i df)
  | _ :: _ :: _ => Raise TypeError
  end.

Fixpoint set_cells (i : nat) (vs : list value) (rs : list (list value))
  {struct rs} : list (list value) :=
  match rs, vs with
  | r :: rs', v :: vs' => set_nth i v r :: set_cells i vs' rs'
  | _, _ => rs
  end.

Fixpoint append_cells (vs : list value) (rs : list (list value))
  {struct rs} : list (list value) :=
  match rs, vs with
  | r :: rs', v :: vs' => (r ++ [v]) :: append_cells vs' rs'
  | _, _ => rs
  end.

(** [df[name] = series]: the columns labelled [name] are replaced, a new
    column is added at the end when there is none. *)
Definition set_series (name : text) (vs : list value) (df : DataFrame)
  : DataFrame :=
  match positions name (columns df) with
  | [] => mkFrame (columns df ++ [name]) (append_cells vs (rows df))
  | ps => mkFrame (columns df)
                  (fold_left (fun rs i => set_cells i vs rs) ps (rows df))
  end.

(** [pd.to_numeric(series, errors='coerce')] on one cell. *)
Definition to_numeric_cell (c : value) : value :=
  match c with
  | CStr s => match parse_number s with
              | Some x => CNum x
              | None => CNaN
              end
  | CTime _ => CNaN
  | other => other
  end.

Definition to_numeric (vs : list value) : list value := map to_numeric_cell vs.

(** [series.isna().sum()] *)
Definition count_na (vs : list value) : nat := length (filter isna vs).

Definition row_has_na (ps : list nat) (r : list value) : bool :=
  existsb (fun i => isna (nth i r CNaN)) ps.

(** [df.dropna(subset=names)]: [KeyError] when a name is not a column. *)
Definition dropna (names : list text) (df : DataFrame) : result DataFrame :=
  if forallb (fun n => has_column n df) names then
    let ps := flat_map (fun n => positions n (columns df)) names in
    Ok (mkFrame (columns df)
                (filter (fun r => negb (row_has_na ps r)) (rows df)))
  else Raise KeyError.

(** [series.fillna(0).astype(int)] on one cell; [None]: [astype] raises. *)
Definition fillna0_astype_int (c : value) : option value :=
  match c with
  | CNaN => Some (CInt 0)
  | CNum x => option_map CInt (number_to_int x)
  | CInt z => Some (CInt z)
  | _ => None
  end.

Fixpoint all_some (A : Type) (l : list (option A)) : option (list A) :=
  match l with
  | [] => Some []
  | Some x :: l' => option_map (cons x) (all_some l')
  | None :: _ => None
  end.

(** The keyword arguments the sources give to [pd.read_csv]. *)
Record read_csv_args : Type := mkArgs {
  skiprows : nat;
  skip_bad_lines : bool;      (* on_bad_lines='skip' *)
  python_engine : bool;       (* engine='python' *)
  dtype_str : bool;           (* dtype=str *)
  sniff_sep : bool            (* sep=None *)
}.

End Frames.
Arguments DataFrame P : clear implicits.

Abbreviation value P := (cell (@number P)) (only parsing).

End Pandas.
Import Pandas.

(* ================================================================== *)
(** ** Analisis_Interferencias.py *)
(* ================================================================== *)

Module Interferencias.

Inductive msg : Type :=
| MsgLoading
| MsgTrying (i : nat)
| MsgStrategyOk (i rows : nat)
| MsgStrategyFailed (i : nat) (e : exn)
| MsgTryingManual
| MsgManualFailed (e : exn)
| MsgHeaderCount (n : nat)
| MsgLineCount (n : nat)
| MsgCorrected (n : nat)
| MsgInitialShape (r c : nat)
| MsgMissingColumns (missing available : list text)
| MsgRssiNulls (n : nat)
| MsgChannelNulls (n : nat)
| MsgRowsRemoved (n : nat)
| MsgFinalShape (r c : nat)
| MsgNotLoaded
| MsgNoValidData
| MsgProcessed (rows : nat)
| MsgFileNotFound
| MsgProcessingError (e : exn).

Section Loader.
Context {P : Scalars}.

(** [pd.read_csv(csv_file, **args)], of pandas. *)
Variable read_csv : read_csv_args -> option text -> result (DataFrame P).

(** The four calls of [pd.read_csv] in [strategies], all with [skiprows=1]:
    no further option; [on_bad_lines='skip', engine='python'];
    [dtype=str, on_bad_lines='skip']; [sep=None, engine='python']. *)
Definition strict_parse : read_csv_args := mkArgs 1 false false false false.
Definition lenient_parse : read_csv_args := mkArgs 1 true true false false.
Definition text_parse : read_csv_args := mkArgs 1 true false true false.
Definition sniffing_parse : read_csv_args := mkArgs 1 false true false true.

Definition strategies : list read_csv_args :=
  [strict_parse; lenient_parse; text_parse; sniffing_parse].

(** The body of the loop over the data lines in [manual_csv_loader]. *)
Definition manual_step (expected_columns : nat)
  (st : list (list (value P)) * nat) (line : text)
  : list (list (value P)) * nat :=
  let '(data, problematic_lines) := st in
  let fields := split comma (strip line) in
  if length fields =? expected_columns then
    (data ++ [map CStr fields], problematic_lines)
  else if expected_columns <? length fields then
    (data ++ [map CStr (firstn expected_columns fields)], S problematic_lines)
  else if length fields <? expected_columns then
    (data ++ [map CStr fields
                ++ repeat CNaN (expected_columns - length fields)],
     S problematic_lines)
  else (data, S problematic_lines).

Definition manual_csv_loader (file : option text)
  : list msg * result (DataFrame P) :=
  match file with
  | None => ([], Raise FileNotFoundError)
  | Some content =>
      let lines := readlines content in
      if length lines <? 2 then ([], Raise ValueError)
      else
        let headers := split comma (strip (nth 1 lines [])) in
        let expected_columns := length headers in
        let '(data, problematic_lines) :=
          fold_left (manual_step expected_columns) (skipn 2 lines) ([], 0) in
        ([MsgHeaderCount expected_columns; MsgLineCount (length lines)]
           ++ (if 0 <? problematic_lines then [MsgCorrected problematic_lines]
               else []),
         Ok (mkFrame headers data))
  end.

(** The loop over [strategies]; [i] counts the strategies already tried. *)
Fixpoint try_strategies (file : option text) (i : nat)
  (todo : list read_csv_args) : list msg * option (DataFrame P) :=
  match todo with
  | [] => ([], None)
  | strategy :: todo' =>
      match read_csv strategy file with
      | Ok df =>
          ([MsgTrying (i + 1); MsgStrategyOk (i + 1) (length (rows df))],
           Some df)
      | Raise e =>
          let '(log, r) := try_strategies file (S i) todo' in
          (MsgTrying (i + 1) :: MsgStrategyFailed (i + 1) e :: log, r)
      end
  end.


(** [robust_csv_loader]: [None] is the value it returns when nothing
    loaded the file. *)
Definition robust_csv_loader (file : option text)
  : list msg * option (DataFrame P) :=
  match try_strategies file 0 strategies with
  | (log, Some df) => (MsgLoading :: log, Some df)
  | (log, None) =>
      match manual_csv_loader file with
      | (log', Ok df) => (MsgLoading :: log ++ MsgTryingManual :: log', Some df)
      | (log', Raise e) =>
          (MsgLoading :: log ++ MsgTryingManual :: log' ++ [MsgManualFailed e],
           None)
      end
  end.

Definition critical_columns : list text := map str ["SSID"; "RSSI"; "Channel"]%string.

(** [df[name] = pd.to_numeric(df[name], errors='coerce')] followed by the
    count of the missing values of the column. *)
Definition coerce_column (name : text) (df : DataFrame P)
  : result (DataFrame P * nat) :=
  match get_series name df with
  | Ok vs => Ok (set_series name (to_numeric vs) df, count_na (to_numeric vs))
  | Raise e => Raise e
  end.

Definition clean_and_validate_data (df : DataFrame P)
  : list msg * result (DataFrame P) :=
  let missing_columns :=
    filter (fun col => negb (has_column col df)) critical_columns in
  let log0 :=
    MsgInitialShape (length (rows df)) (length (columns df))
    :: match missing_columns with
       | [] => []
       | _ :: _ => [MsgMissingColumns missing_columns (columns df)]
       end in
  match (if has_column (str "RSSI") df then coerce_column (str "RSSI") df
         else Ok (df, 0)) with
  | Raise e => (log0, Raise e)
  | Ok (df1, rssi_nulos) =>
      let log1 := log0 ++ (if 0 <? rssi_nulos then [MsgRssiNulls rssi_nulos]
                           else []) in
      match (if has_column (str "Channel") df1
             then coerce_column (str "Channel") df1 else Ok (df1, 0)) with
      | Raise e => (log1, Raise e)
      | Ok (df2, channel_nulos) =>
          let log2 :=
            log1 ++ (if 0 <? channel_nulos then [MsgChannelNulls channel_nulos]
                     else []) in
          let initial_rows := length (rows df2) in
          match dropna [str "RSSI"; str "Channel"] df2 with
          | Raise e => (log2, Raise e)
          | Ok df3 =>
              let final_rows := length (rows df3) in
              let removed_rows := initial_rows - final_rows in
              (log2
                 ++ (if 0 <? removed_rows then [MsgRowsRemoved removed_rows]
                     else [])
                 ++ [MsgFinalShape final_rows (length (columns df3))],
               Ok df3)
          end
      end
  end.

(** The [try] block that opens [analyze_wifi_interference]: [None] when the
    function returns [None] there, [Some df] when it goes on to the analysis
    with the frame [df]. *)
Definition analyze_wifi_interference (file : option text)
  : list msg * option (DataFrame P) :=
  match robust_csv_loader file with
  | (log, None) => (log ++ [MsgNotLoaded], None)
  | (log, Some df) =>
      match clean_and_validate_data df with
      | (log', Raise FileNotFoundError) =>
          (log ++ log' ++ [MsgFileNotFound], None)
      | (log', Raise e) => (log ++ log' ++ [MsgProcessingError e], None)
      | (log', Ok df') =>
          if length (rows df') =? 0 then (log ++ log' ++ [MsgNoValidData], None)
          else (log ++ log' ++ [MsgProcessed (length (rows df'))], Some df')
      end
  end.

End Loader.

End Interferencias.

(* ================================================================== *)
(** ** WiFi_Wardriving.py *)
(* ================================================================== *)

Module Wardriving.

Inductive msg : Type :=
| MsgNotExists
| MsgNoValidData
| MsgMissingColumns (missing available : list text)
| MsgMapped (alias col : text)
| MsgPrepared (n : nat)
| MsgPrepareError (e : exn)
| MsgLoadError (e : exn).

Definition bind (A B : Type) (r : result A) (k : A -> result B) : result B :=
  match r with
  | Ok a => k a
  | Raise e => Raise e
  end.

Notation "x <- r ;; k" := (bind r (fun x => k))
  (at level 61, r at next level, right associativity).

Section Analyzer.
Context {P : Scalars}.

Definition columnas_requeridas : list text :=
  map str ["SSID"; "FirstSeen"; "Channel"; "Frequency"; "RSSI";
           "CurrentLatitude"; "CurrentLongitude"; "AuthMode"]%string.

Definition mapeo_columnas : list (text * list text) :=
  map (fun p => (str (fst p), map str (snd p)))
    [ ("SSID", ["SSID"; "ssid"; "Ssid"]);
      ("FirstSeen", ["FirstSeen"; "First seen"; "firstseen"; "Timestamp"]);
      ("Channel", ["Channel"; "channel"; "CH"]);
      ("Frequency", ["Frequency"; "frequency"; "Freq"]);
      ("RSSI", ["RSSI"; "rssi"; "Signal"]);
      ("CurrentLatitude", ["CurrentLatitude"; "Latitude"; "Lat"; "latitude"]);
      ("CurrentLongitude",
       ["CurrentLongitude"; "Longitude"; "Lon"; "longitude"]);
      ("AuthMode", ["AuthMode"; "Authentication"; "Encryption"; "auth"])
    ]%string.

(** [mapeo_columnas.get(col, [])] *)
Definition aliases_of (col : text) : list text :=
  match find (fun p => text_eqb col (fst p)) mapeo_columnas with
  | Some p => snd p
  | None => []
  end.

(** The body of the loop over [columnas_faltantes]: the first alias that is
    a column is copied under the required name. *)
Definition map_column (st : list msg * result (DataFrame P)) (col : text)
  : list msg * result (DataFrame P) :=
  match st with
  | (log, Raise e) => (log, Raise e)
  | (log, Ok df) =>
      match find (fun a => has_column a df) (aliases_of col) with
      | None => (log, Ok df)
      | Some a =>
          match get_series a df with
          | Ok vs => (log ++ [MsgMapped a col], Ok (set_series col vs df))
          | Raise e => (log, Raise e)
          end
      end
  end.

(** [df[name] = pd.to_numeric(df[name], errors='coerce').fillna(0).astype(int)] *)
Definition to_int_column (name : text) (df : DataFrame P)
  : result (DataFrame P) :=
  if has_column name df then
    vs <- get_series name df ;;
    match all_some (map fillna0_astype_int (to_numeric vs)) with
    | Some vs' => Ok (set_series name vs' df)
    | None => Raise ValueError
    end
  else Ok df.

(** [df[name] = pd.to_numeric(df[name], errors='coerce')] *)
Definition to_numeric_column (name : text) (df : DataFrame P)
  : result (DataFrame P) :=
  if has_column name df then
    vs <- get_series name df ;;
    Ok (set_series name (to_numeric vs) df)
  else Ok df.

(** The same, followed by [df = df.dropna(subset=[name])]. *)
Definition coordinate_column (name : text) (df : DataFrame P)
  : result (DataFrame P) :=
  if has_column name df then
    vs <- get_series name df ;;
    dropna [name] (set_series name (to_numeric vs) df)
  else Ok df.

(** The block [# Preparar datos] of [cargar_datos]. *)
Definition preparar_datos (df : DataFrame P) : result (DataFrame P) :=
  first_seen <- get_series (str "FirstSeen") df ;;
  df1 <- Ok (set_series (str "Timestamp") (map to_datetime_cell first_seen) df) ;;
  df2 <- to_int_column (str "Channel") df1 ;;
  df3 <- to_int_column (str "Frequency") df2 ;;
  df4 <- to_numeric_column (str "RSSI") df3 ;;
  df5 <- coordinate_column (str "CurrentLatitude") df4 ;;
  coordinate_column (str "CurrentLongitude") df5.

(** [cargar_datos], from the frame the reading attempts produced ([loaded],
    an exception when the last of them raised; [exists] is
    [os.path.exists(archivo_csv)]).  [Some df]: the method returns [True]
    and leaves [df] in [self.df]; [None]: it returns [False]. *)
Definition cargar_datos (exists_ : bool) (loaded : result (DataFrame P))
  : list msg * option (DataFrame P) :=
  if negb exists_ then ([MsgNotExists], None)
  else
    match loaded with
    | Raise e => ([MsgLoadError e], None)
    | Ok df0 =>
        if (length (rows df0) =? 0) || (length (columns df0) =? 0)
        then ([MsgNoValidData], None)
        else
          let df := mkFrame (map strip (columns df0)) (rows df0) in
          let columnas_faltantes :=
            filter (fun col => negb (has_column col df)) columnas_requeridas in
          let '(log, mapped) :=
            match columnas_faltantes with
            | [] => ([], Ok df)
            | _ :: _ =>
                fold_left map_column columnas_faltantes
                  ([MsgMissingColumns columnas_faltantes (columns df)], Ok df)
            end in
          match mapped with
          | Raise e => (log ++ [MsgLoadError e], None)
          | Ok df' =>
              match preparar_datos df' with
              | Ok df'' => (log ++ [MsgPrepared (length (rows df''))], Some df'')
              | Raise e => (log ++ [MsgPrepareError e], None)
              end
          end
    end.

End Analyzer.

End Wardriving.

(* ================================================================== *)
(** ** An instance of the pandas parameters, to run the model *)
(* ================================================================== *)

Module Sample.

(** Whole numbers only: a text is a number when it is an optional sign
    followed by decimal digits. *)
Definition parse_integer (s : text) : option Z :=
  match strip s with
  | [] => None
  | c :: ds =>
      if Ascii.eqb c "-"%char
      then option_map (fun n => Z.opp (Z.of_nat n)) (int_of_text ds)
      else if Ascii.eqb c "+"%char
      then option_map Z.of_nat (int_of_text ds)
      else option_map Z.of_nat (int_of_text (c :: ds))
  end.

#[export] Instance IntScalars : Scalars := {|
  number := Z;
  number_of_Z := fun z => z;
  parse_number := parse_integer;
  number_to_int := fun z => Some z;
  to_datetime_cell := fun c =>
    match c with
    | CStr s => match strptime (strip s) (str "%Y-%m-%d %H:%M:%S") with
                | Some d => CTime d
                | None => CNaN
                end
    | CTime d => CTime d
    | _ => CNaN
    end
|}.


(** A reader for plain comma-separated text that treats over-long rows as
    pandas documents it for [on_bad_lines]: an error by default, the row
    left out under ['skip']; short rows are filled with missing values. *)
Definition csv_row (n : nat) (line : text) : list (value IntScalars) :=
  let fields := split comma (strip line) in
  map CStr fields ++ repeat CNaN (n - length fields).

Definition plain_read_csv (args : read_csv_args) (file : option text)
  : result (DataFrame IntScalars) :=
  match file with
  | None => Raise FileNotFoundError
  | Some content =>
      match skipn (skiprows args) (readlines content) with
      | [] => Raise ValueError
      | header :: data =>
          let headers := split comma (strip header) in
          let n := length headers in
          let too_long l := n <? length (split comma (strip l)) in
          if skip_bad_lines args then
            Ok (mkFrame headers
                  (map (csv_row n) (filter (fun l => negb (too_long l)) data)))
          else if existsb too_long data then Raise ParserError
          else Ok (mkFrame headers (map (csv_row n) data))
      end
  end.

(** Two survey rows, the first with an RSSI that is not a number. *)
Definition survey : DataFrame IntScalars :=
  mkFrame (map str ["SSID"; "RSSI"; "Channel"]%string)
          [ [CStr (str "cafe"); CStr (str "abc"); CStr (str "6")];
            [CStr (str "casa"); CStr (str "-55"); CStr (str "11")] ].





(** A survey without a Channel column. *)
Definition survey_without_channel : DataFrame IntScalars :=
  mkFrame (map str ["SSID"; "RSSI"]%string)
          [ [CStr (str "casa"); CStr (str "-55")] ].

Definition noon : datetime := mkDatetime 2024 1 1 12 0 0.

(** Files, given by their lines. *)
Definition file_of (lines : list string) : text := write_lines (map str lines).

Definition file_without_channel : text :=
  file_of ["WigleWifi-1.4"; "SSID,RSSI"; "casa,-55"]%string.

Definition file_exact : text :=
  file_of ["WigleWifi-1.4"; "SSID,RSSI"; "casa,-55"]%string.

Definition file_long_row : text :=
  file_of ["WigleWifi-1.4"; "SSID,RSSI"; "casa,-55,WPA2"]%string.


(** A survey with a sentinel, a day-first date and an unreadable date in
    its date column, and what the repair writes for it at noon. *)
Definition file_dates : text :=
  file_of ["WigleWifi-1.4"; "SSID,FirstSeen,AuthMode"; "casa,WPA2,WPA2";
           "cafe, 15/03/2024 10:30:00 ,OPEN"; "bar, sin fecha ,WEP"]%string.

Definition file_dates_repaired : text :=
  file_of ["WigleWifi-1.4"; "SSID,FirstSeen,AuthMode";
           "casa,2024-01-01 12:00:00,WPA2"; "cafe,2024-03-15 10:30:00,OPEN";
           "bar,sin fecha,WEP"]%string.

End Sample.


(* ================================================================== *)
(** ** Notions used to state the properties *)
(* ================================================================== *)

Module Notions.

(** The fields of a line of the file. *)
Definition fields_of (line : text) : list text := split comma (strip line).

(** Column labels. *)
Definition RSSI : text := str "RSSI".
Definition Channel : text := str "Channel".

Section Frames.
Context {P : Scalars}.

(** A data line fitted to [n] columns: its first [n] fields, then missing
    values up to [n]. *)
Definition fit_row (n : nat) (line : text) : list (value P) :=
  map CStr (firstn n (fields_of line))
  ++ repeat CNaN (n - length (fields_of line)).

(** The data lines whose field count differs from [n]. *)
Definition mismatched (n : nat) (data : list text) : list text :=
  filter (fun line => negb (length (fields_of line) =? n)) data.

(** A row after the cell at position [i] went through [pd.to_numeric]. *)
Definition coerce_at (i : nat) (r : list (value P)) : list (value P) :=
  set_nth i (to_numeric_cell (nth i r CNaN)) r.

(** A numeric, non-missing cell. *)
Definition is_numeric (c : value P) : bool :=
  match c with CNum _ | CInt _ => true | _ => false end.

(** The row has a value at each of the positions [ps]. *)
Definition complete (ps : list nat) (r : list (value P)) : bool :=
  negb (row_has_na ps r).

(** [Phi] holds of every row at the one column labelled [name]. *)
Definition column_holds (name : text) (Phi : nat -> list (value P) -> Prop)
  (df : DataFrame P) : Prop :=
  exists k, positions name (columns df) = [k]
            /\ forall r, In r (rows df) -> Phi k r.

(** The row has a numeric, non-missing cell at [k]. *)
Definition numeric_at (k : nat) (r : list (value P)) : Prop :=
  exists c, nth_error r k = Some c /\ is_numeric c = true.







End Frames.

End Notions.
Import Notions.

Module Language.



(** [fmt] is the first of the formats [fmts], in their order, under which
    [v] parses, and [v] parses to [d] under it. *)
Definition first_parse (v : text) (fmts : list text) (fmt : text)
  (d : datetime) : Prop :=
  exists pre post,
    fmts = pre ++ fmt :: post
    /\ (forall f, In f pre -> strptime v f = None)
    /\ strptime v fmt = Some d.

(** The characters of a printed timestamp. *)
Definition stamp_char (c : ascii) : Prop :=
  is_digit c = true \/ c = "-"%char \/ c = " "%char \/ c = ":"%char.


(** Characters that end no line. *)
Definition inline (c : ascii) : Prop := c <> LF /\ c <> CR.

(** The fields of a line after the field at [k] was repaired. *)
Definition repaired_field (clock : nat -> nat -> datetime) (line_num : nat)
  (fields : list text) (k : nat) : list text :=
  if k <? length fields
  then set_nth k (repair_date_field (clock line_num k) (nth k fields [])) fields
  else fields.

(** The fields of a line after the date columns were repaired. *)
Definition repaired_fields (clock : nat -> nat -> datetime) (line_num : nat)
  (date_column_indices : list nat) (fields : list text) : list text :=
  fold_left (repaired_field clock line_num) date_column_indices fields.

(** The line written for a line read. *)
Definition repaired_line (clock : nat -> nat -> datetime)
  (date_column_indices : list nat) (l : nat * text) : text :=
  if fst l <? 2 then strip (snd l)
  else join comma (repaired_fields clock (fst l) date_column_indices
                     (split comma (strip (snd l)))).

(** The indices of the date columns, from the header line. *)
Definition date_indices (lines : list text) : list nat :=
  map fst (find_date_columns (split comma (strip (nth 1 lines [])))).

(** A text that does not start with whitespace. *)
Definition starts_solid (s : text) : Prop :=
  match s with
  | [] => True
  | c :: _ => is_space c = false
  end.

(** A text is bare when it neither starts nor ends with whitespace. *)
Definition bare (s : text) : Prop := lstrip s = s /\ rstrip s = s.

(** A field is kept, or replaced by a bare text that is not empty. *)
Definition kept_or_bare (f f' : text) : Prop :=
  f' = f \/ (f' <> [] /\ bare f').

Definition kept_or_solid (f f' : text) : Prop :=
  f' = f \/ (f' <> [] /\ starts_solid f').

(** [m] occurs in [v]. *)
Definition occurs (m v : text) : Prop := exists pre post, v = pre ++ m ++ post.










End Language.
Import Language.

From Stdlib Require Floats.

(* ================================================================== *)
(** ** File names: [str.replace] and [os.path] *)
(* ================================================================== *)

Module PyPath.

(** [s.replace(old, new)] for an [old] that is not empty: the occurrences
    of [old] met from left to right, none overlapping the one before it,
    are replaced by [new].  [skip] counts the characters of the occurrence
    just replaced that are still to be passed over. *)
Fixpoint replace_from (skip : nat) (old new s : text) : text :=
  match s with
  | [] => []
  | c :: s' =>
      match skip with
      | S k => replace_from k old new s'
      | 0 => if starts_with old s
             then new ++ replace_from (length old - 1) old new s'
             else c :: replace_from 0 old new s'
      end
  end.

Definition replace (old new s : text) : text := replace_from 0 old new s.

(** [s.rfind(c)] for a character [c]: the last index of [c], -1 without. *)
Fixpoint rfind (c : ascii) (s : text) : Z :=
  match s with
  | [] => (-1)%Z
  | x :: s' =>
      let r := rfind c s' in
      if (0 <=? r)%Z then (r + 1)%Z
      else if Ascii.eqb x c then 0%Z else (-1)%Z
  end.

(** [p[i:]] and [p[:i]] for an index that is not negative. *)
Definition slice_from (i : Z) (p : text) : text := skipn (Z.to_nat i) p.
Definition slice_to (i : Z) (p : text) : text := firstn (Z.to_nat i) p.

(** [posixpath.basename]: [i = p.rfind('/') + 1; return p[i:]]. *)
Definition basename (p : text) : text :=
  slice_from (rfind "/"%char p + 1) p.

(** [posixpath.splitext], that is [genericpath._splitext] with the
    separator "/" and the extension separator ".": the text is split at its
    last dot when that dot follows the last separator and some character
    between the two is not a dot. *)
Definition splitext (p : text) : text * text :=
  let sepIndex := rfind "/"%char p in
  let dotIndex := rfind "."%char p in
  if (sepIndex <? dotIndex)%Z then
    let filenameIndex := (sepIndex + 1)%Z in
    if forallb (Ascii.eqb "."%char)
               (slice_to (dotIndex - filenameIndex) (slice_from filenameIndex p))
    then (p, [])
    else (slice_to dotIndex p, slice_from dotIndex p)
  else (p, []).

End PyPath.
Import PyPath.

(* ================================================================== *)
(** ** depurador_csv.py: the command line *)
(* ================================================================== *)

Module DepuradorCli.

(** The file [repair_date_issues] writes: [output_file], or the name made
    from [csv_file] when it is [None]. *)
Definition output_file_of (csv_file : text) (output_file : option text)
  : text :=
  match output_file with
  | None => replace (str ".csv") (str "_fixed.csv") csv_file
  | Some name => name
  end.

(** The file [create_smart_date_loader] writes. *)
Definition loader_file_of (csv_file : text) : text :=
  replace (str ".csv") (str "_smart_loader.py") csv_file.

(** The parsed command line. *)
Record arguments : Type := mkArguments {
  archivo : text;
  output : option text;
  solo_analisis : bool;
  validar : bool;
  crear_loader : bool
}.

(** What a run does, in order: the messages of the analysis and of the
    repair, the summary of the analysis, the file written by the repair,
    the calls of [validate_date_repair] and of [create_smart_date_loader]. *)
Inductive event : Type :=
| Printed (m : msg)
| Summary (problems : nat)
| Wrote (name content : text)
| Validated (name : text)
| LoaderCreated (name : text).

(** How a run ends: [main] returns, [sys.exit(code)], or an exception that
    nothing catches. *)
Inductive ending : Type :=
| Returns
| Exits (code : nat)
| Uncaught (e : exn).

(** [main].  [exists_] is [os.path.exists(args.archivo)], [file] the text of
    the file when it opens; the writes are taken to succeed. *)
Definition main (clock : nat -> nat -> datetime) (exists_ : bool)
  (file : option text) (args : arguments) : list event * ending :=
  if negb exists_ then ([], Exits 1)
  else if solo_analisis args then
    match analyze_date_problems file with
    | (log, Pair _ _) => (map Printed log, Uncaught ValueError)
    | (log, Triple _ problems _) =>
        (map Printed log ++ [Summary (length problems)], Returns)
    end
  else
    match repair_date_issues clock file with
    | (log, Raise e) => (map Printed log, Uncaught e)
    | (log, Ok repaired) =>
        let repaired_file := output_file_of (archivo args) (output args) in
        (map Printed log
           ++ match repaired with
              | Some written =>
                  Wrote repaired_file written
                  :: (if negb (is_empty repaired_file) && validar args
                      then [Validated repaired_file] else [])
              | None => []
              end
           ++ (if crear_loader args
               then [LoaderCreated (loader_file_of (archivo args))] else []),
         Returns)
    end.

End DepuradorCli.

(* ================================================================== *)
(** ** Notions used to state the properties of the repair *)
(* ================================================================== *)

Module RepairNotions.

(** The problem the analysis records for the field at [col_idx] of a line,
    when that field does not look like a date. *)
Definition problem_at (line_num : nat) (fields : list text)
  (col : nat * text) : list problem :=
  if (fst col <? length fields)
     && negb (looks_like_date (nth (fst col) fields []))
  then [mkProblem line_num (snd col) (nth (fst col) fields [])
                  (str "No parece fecha")]
  else [].

(** The problems the analysis records for a sampled line, [n_lines] being
    the number of lines of the file. *)
Definition line_problems (n_lines : nat) (date_columns : list (nat * text))
  (l : nat * text) : list problem :=
  if n_lines <=? fst l then []
  else flat_map (problem_at (fst l) (fields_of (snd l))) date_columns.

(** The fields of the line numbered [k] from 0. *)
Definition fields_at (lines : list text) (k : nat) : list text :=
  fields_of (nth k lines []).






End RepairNotions.
Import RepairNotions.

(* ================================================================== *)
(** ** The order of the numbers *)
(* ================================================================== *)

Module Numbers.

(** [x <= y] on the numbers of the frames; a number is not NaN, which is a
    cell of its own. *)
Class Order (P : Scalars) : Type := {
  num_leb : @number P -> @number P -> bool
}.

Section Comparisons.
Context {P : Scalars} {O : Order P}.

(** [x == y] *)
Definition num_eqb (x y : number) : bool := num_leb x y && num_leb y x.

(** What the order of the numbers satisfies, be they floating-point numbers
    or integers: it is total and transitive, the conversion from the
    integers respects it, and [int] gives equal numbers the same integer. *)
Record lawful : Prop := mkLawful {
  leb_total : forall x y, num_leb x y = true \/ num_leb y x = true;
  leb_trans : forall x y z,
    num_leb x y = true -> num_leb y z = true -> num_leb x z = true;
  leb_of_Z : forall a b, (a <= b)%Z ->
    num_leb (number_of_Z a) (number_of_Z b) = true;
  int_eq : forall x y, num_eqb x y = true -> number_to_int x = number_to_int y
}.

(** The comparisons of a number with an integer constant:
    [x >= c], [x <= c], [x > c], [x < c]. *)
Definition num_ge (x : number) (c : Z) : bool := num_leb (number_of_Z c) x.
Definition num_le (x : number) (c : Z) : bool := num_leb x (number_of_Z c).
Definition num_gt (x : number) (c : Z) : bool := negb (num_le x c).
Definition num_lt (x : number) (c : Z) : bool := negb (num_ge x c).

(** A comparison of a cell of a column with an integer constant, as in
    [series > c]: a missing value compares false, a text or a timestamp
    raises [TypeError]. *)
Definition compare_cell (cmp : number -> Z -> bool) (c : Z) (v : value P)
  : result bool :=
  match v with
  | CNum x => Ok (cmp x c)
  | CInt z => Ok (cmp (number_of_Z z) c)
  | CNaN => Ok false
  | CStr _ | CTime _ => Raise TypeError
  end.

End Comparisons.

End Numbers.
Import Numbers.

(* ================================================================== *)
(** ** Analisis_Interferencias.py: the analysis *)
(* ================================================================== *)

Module Analisis.

(** The files [analyze_wifi_interference] writes. *)
Definition output_image_of (csv_file : text) : text :=
  replace (str ".csv") (str "_analysis.png") csv_file.

Definition output_report_of (csv_file : text) : text :=
  replace (str ".csv") (str "_report.txt") csv_file.

(** The labels [classify_signal] returns. *)
Inductive quality : Type :=
| Excelente | Buena | Regular | Debil | MuyDebil.

(** The labels from the worst, 0, to the best, 4. *)
Definition grade (q : quality) : nat :=
  match q with
  | MuyDebil => 0 | Debil => 1 | Regular => 2 | Buena => 3 | Excelente => 4
  end.

(** A list in which no element has a greater key than an element before
    it. *)
Fixpoint descending (A : Type) (key : A -> nat) (l : list A) : Prop :=
  match l with
  | [] => True
  | x :: l' => (forall y, In y l' -> key y <= key x) /\ descending key l'
  end.

(** [min(l, key=key)]: the first of the elements whose key is least;
    [None] stands for the [ValueError] on an empty list. *)
Fixpoint min_from (A : Type) (key : A -> Z) (best : A) (l : list A) : A :=
  match l with
  | [] => best
  | x :: l' =>
      if (key x <? key best)%Z then min_from key x l' else min_from key best l'
  end.

Definition py_min (A : Type) (key : A -> Z) (l : list A) : option A :=
  match l with
  | [] => None
  | x :: l' => Some (min_from key x l')
  end.

Definition non_overlapping : list Z := [1; 6; 11]%Z.

(** [channel_int not in non_overlapping] *)
Definition overlapping (channel_int : Z) : bool :=
  negb (existsb (Z.eqb channel_int) non_overlapping).

(** [min(non_overlapping, key=lambda x: abs(x - channel_int))] *)
Definition closest_non_overlap (channel_int : Z) : option Z :=
  py_min (fun x => Z.abs (x - channel_int)) non_overlapping.

(** [l.sort(key=key, reverse=True)]: by decreasing key, the elements of
    equal key in their original order. *)
Fixpoint insert_desc (A : Type) (key : A -> nat) (x : A) (l : list A)
  : list A :=
  match l with
  | [] => [x]
  | y :: l' => if key x <? key y then y :: insert_desc key x l' else x :: l
  end.

Definition sort_desc (A : Type) (key : A -> nat) (l : list A) : list A :=
  fold_right (insert_desc key) [] l.

Section Analysis.
Context {P : Scalars} {O : Order P}.

(** [classify_signal], the function nested in [analyze_wifi_interference]. *)
Definition classify_signal (rssi : number) : quality :=
  if num_ge rssi (-50) then Excelente
  else if num_ge rssi (-60) then Buena
  else if num_ge rssi (-70) then Regular
  else if num_ge rssi (-80) then Debil
  else MuyDebil.

(** [series.unique()]: the values in the order in which they first
    appear. *)
Fixpoint unique_from (seen vs : list number) : list number :=
  match vs with
  | [] => []
  | v :: vs' =>
      if existsb (num_eqb v) seen then unique_from seen vs'
      else v :: unique_from (v :: seen) vs'
  end.

Definition unique (vs : list number) : list number := unique_from [] vs.

(** [len(df[df['Channel'] == channel])] *)
Definition count_equal (channel : number) (channels : list number) : nat :=
  length (filter (num_eqb channel) channels).

(** [channel_counts.get(channel, 0)] for [channel_counts =
    df['Channel'].value_counts()] and an integer [channel]. *)
Definition counts_get (channel : Z) (channels : list number) : nat :=
  count_equal (number_of_Z channel) channels.

(** An entry of [overlapping_issues] in [analyze_wifi_interference]: the
    channel, the closest channel that overlaps no other, the distance. *)
Definition issue : Type := (Z * Z * Z)%type.

(** The body of the loop over [df['Channel'].unique()] that fills
    [overlapping_issues]; [None] stands for an exception, raised by
    [int(channel)] on a number that is not finite. *)
Definition issue_step (st : option (list issue)) (channel : number)
  : option (list issue) :=
  match st with
  | None => None
  | Some overlapping_issues =>
      match number_to_int channel with
      | None => None
      | Some channel_int =>
          if overlapping channel_int then
            match closest_non_overlap channel_int with
            | Some closest =>
                Some (overlapping_issues
                        ++ [(channel_int, closest,
                             Z.abs (channel_int - closest))])
            | None => None
            end
          else Some overlapping_issues
      end
  end.

(** [overlapping_issues] of [analyze_wifi_interference], from the numbers
    of the Channel column. *)
Definition overlapping_issues (channels : list number)
  : option (list issue) :=
  fold_left issue_step (unique channels) (Some []).

(** An entry of [overlapping_issues] in [generate_comprehensive_analysis]:
    the channel, the closest channel that overlaps no other, the number of
    networks on the channel. *)
Definition counted_issue : Type := (Z * Z * nat)%type.

Definition counted_issue_step (channels : list number)
  (st : option (list counted_issue)) (channel : number)
  : option (list counted_issue) :=
  match st with
  | None => None
  | Some overlapping_issues =>
      match number_to_int channel with
      | None => None
      | Some channel_int =>
          if overlapping channel_int then
            match closest_non_overlap channel_int with
            | Some closest =>
                Some (overlapping_issues
                        ++ [(channel_int, closest,
                             count_equal channel channels)])
            | None => None
            end
          else Some overlapping_issues
      end
  end.

Definition counted_issues (channels : list number)
  : option (list counted_issue) :=
  fold_left (counted_issue_step channels) (unique channels) (Some []).

(** The channels [generate_comprehensive_analysis] lists as problematic:
    [overlapping_issues[:6]] after the sort by decreasing count. *)
Definition problem_channels (channels : list number)
  : option (list counted_issue) :=
  option_map (fun issues => firstn 6 (sort_desc snd issues))
             (counted_issues channels).

(** [channel in df['Channel'].values] *)
Definition in_values (channel : Z) (channels : list number) : bool :=
  existsb (fun v => num_eqb v (number_of_Z channel)) channels.

(** [optimal_channels], the channels [analyze_wifi_interference]
    recommends. *)
Definition optimal_channels (channels : list number) : list Z :=
  filter (fun channel =>
            negb (in_values channel channels)
            || (counts_get channel channels <? 2))
         non_overlapping.

End Analysis.

End Analisis.

(* ================================================================== *)
(** ** WiFi_Wardriving.py: the reports *)
(* ================================================================== *)

Module Reporte.

(** [self.nombre_base] of [WardrivingAnalyzer.__init__]. *)
Definition nombre_base (archivo_csv : text) : text :=
  fst (splitext (basename archivo_csv)).

(** The files [generar_mapa_calor], [generar_mapa_localizacion] and
    [generar_graficos] save. *)
Definition archivo_mapa_calor (archivo_csv : text) : text :=
  str "mapa_calor_" ++ nombre_base archivo_csv ++ str ".html".

Definition archivo_mapa_localizacion (archivo_csv : text) : text :=
  str "mapa_localizacion_" ++ nombre_base archivo_csv ++ str ".html".

Definition archivo_graficos (archivo_csv : text) : text :=
  str "graficos_avanzados_" ++ nombre_base archivo_csv ++ str ".png".

Section Signal.
Context {P : Scalars} {O : Order P}.

(** [len(df[mask])] for a mask computed cell by cell. *)
Fixpoint count_where (mask : value P -> result bool) (vs : list (value P))
  : result nat :=
  match vs with
  | [] => Ok 0
  | v :: vs' =>
      match mask v, count_where mask vs' with
      | Ok b, Ok n => Ok (if b then S n else n)
      | Raise e, _ => Raise e
      | _, Raise e => Raise e
      end
  end.

(** [(a) & (b)] on one cell. *)
Definition both (a b : value P -> result bool) (v : value P) : result bool :=
  match a v, b v with
  | Ok x, Ok y => Ok (x && y)
  | Raise e, _ => Raise e
  | _, Raise e => Raise e
  end.

(** The four counts of [_analizar_calidad_señal], from the RSSI column:
    [excelente], [buena], [aceptable], [debil]. *)
Definition analizar_calidad_senal (rssi : list (value P))
  : result (nat * nat * nat * nat) :=
  match count_where (compare_cell num_gt (-65)) rssi,
        count_where (both (compare_cell num_ge (-75))
                          (compare_cell num_le (-65))) rssi,
        count_where (both (compare_cell num_ge (-85))
                          (compare_cell num_lt (-75))) rssi,
        count_where (compare_cell num_lt (-85)) rssi with
  | Ok excelente, Ok buena, Ok aceptable, Ok debil =>
      Ok (excelente, buena, aceptable, debil)
  | Raise e, _, _, _ => Raise e
  | _, Raise e, _, _ => Raise e
  | _, _, Raise e, _ => Raise e
  | _, _, _, Raise e => Raise e
  end.

End Signal.

(** The weight [generar_mapa_calor] gives a row in the heat map,
    [max(0.1, min(1.0, (row['RSSI'] + 100) / 40))], on the binary64
    floating-point numbers of Python; [rssi] is NaN for a row without RSSI.
    [min(a, b)] is [b] when [b < a] and [a] otherwise, [max(a, b)] is [b]
    when [b > a] and [a] otherwise; 0.1 is the closest binary64 number,
    0x1.999999999999ap-4. *)
Import PrimFloat.

Definition py_min2 (a b : float) : float := if ltb b a then b else a.

Definition py_max2 (a b : float) : float := if ltb a b then b else a.

Definition tenth : float := 0x1.999999999999ap-4%float.

Definition intensity (rssi : float) : float :=
  py_max2 tenth (py_min2 1%float (div (add rssi 100%float) 40%float)).

End Reporte.

(* ================================================================== *)
(** ** The whole numbers as numbers, to run the analysis *)
(* ================================================================== *)

Module IntOrder.

#[export] Instance ZOrder : Order Sample.IntScalars :=
  @Build_Order Sample.IntScalars Z.leb.

End IntOrder.
(* ================================================================== *)
(** * Properties *)
(* ================================================================== *)

(** ** Files with fewer than two lines *)

Module ShortFiles.

Lemma analyze_short_file (content : text) :
  length (readlines content) < 2 ->
  analyze_date_problems (Some content)
  = ([MsgTotalLines (length (readlines content)); MsgTooFewLines],
     Pair None []).
Proof.
  intros Hlen. unfold analyze_date_problems.
  apply Nat.ltb_lt in Hlen. rewrite Hlen. reflexivity.
Qed.

(** The analysis itself never raises: it is a function into its two tuple
    shapes, and a file that cannot be opened gives the triple of the
    [except] branch. *)
Lemma analyze_unreadable_file :
  analyze_date_problems None = ([MsgAnalysisError], Triple None [] []).
Proof. reflexivity. Qed.

(** C1.  On a file with fewer than two lines the analysis reports the
    condition and returns the pair [(None, [])]; [repair_date_issues]
    unpacks that pair into three names and so raises [ValueError] instead
    of returning [None]. *)
Theorem repair_date_issues_short_file
  (clock : nat -> nat -> datetime) (content : text) :
  length (readlines content) < 2 ->
  analyze_date_problems (Some content)
  = ([MsgTotalLines (length (readlines content)); MsgTooFewLines],
     Pair None [])
  /\ snd (repair_date_issues clock (Some content)) = Raise ValueError.
Proof.
  intros Hlen. split.
  - now apply analyze_short_file.
  - unfold repair_date_issues. rewrite (analyze_short_file _ Hlen).
    reflexivity.
Qed.

Lemma repair_date_issues_short_file_witness :
  length (readlines (str "solo una linea")) < 2
  /\ snd (repair_date_issues (fun _ _ => mkDatetime 2024 1 1 0 0 0)
            (Some (str "solo una linea")))
     = Raise ValueError.
Proof.
  split.
  - vm_compute. lia.
  - apply (repair_date_issues_short_file
             (fun _ _ => mkDatetime 2024 1 1 0 0 0) (str "solo una linea")).
    vm_compute. lia.
Defined.

(** The sibling path: a file that cannot be opened makes the repair return
    [None], as the triple of the [except] branch unpacks. *)
Lemma repair_date_issues_unreadable (clock : nat -> nat -> datetime) :
  repair_date_issues clock None
  = ([MsgAnalysisError; MsgCannotProceed], Ok None).
Proof. reflexivity. Qed.

End ShortFiles.

(** ** The strategy cascade *)

Module Cascade.
Import Interferencias.

Section Facts.
Context {P : Scalars}.
Variable read_csv : read_csv_args -> option text -> result (DataFrame P).


(** Every attempt is reported before its outcome. *)
Lemma try_strategies_reports (file : option text) (todo : list read_csv_args)
  (i : nat) :
  match todo with
  | [] => True
  | _ :: _ => hd_error (fst (try_strategies read_csv file i todo))
              = Some (MsgTrying (i + 1))
  end.
Proof.
  destruct todo as [|s todo]; [exact I|]. cbn.
  destruct (read_csv s file); [reflexivity|].
  destruct (try_strategies read_csv file (S i) todo). reflexivity.
Qed.

End Facts.
End Cascade.

(** ** Frames *)

Module FrameFacts.

Section Facts.
Context {P : Scalars}.

Lemma text_eqb_eq (a b : text) : text_eqb a b = true <-> a = b.
Proof.
  revert b. induction a as [|x a IH]; intros [|y b]; cbn;
    try (split; [discriminate|congruence]); [tauto|].
  rewrite andb_true_iff, Ascii.eqb_eq, IH. split.
  - now intros [-> ->].
  - now intros [= -> ->].
Qed.

Lemma text_eqb_refl (a : text) : text_eqb a a = true.
Proof. now apply text_eqb_eq. Qed.

Lemma text_eqb_neq (a b : text) : text_eqb a b = false <-> a <> b.
Proof.
  rewrite <- text_eqb_eq. destruct (text_eqb a b); split; congruence.
Qed.

Lemma positions_from (name : text) (cols : list text) (k : nat) :
  map fst (filter (fun p => text_eqb name (snd p)) (enumerate k cols)) = []
  <-> existsb (text_eqb name) cols = false.
Proof.
  revert k. induction cols as [|c cols IH]; intro k; cbn.
  - tauto.
  - destruct (text_eqb name c); cbn.
    + split; discriminate.
    + apply IH.
Qed.

Lemma positions_nil (name : text) (df : DataFrame P) :
  positions name (columns df) = [] <-> has_column name df = false.
Proof. apply positions_from. Qed.

Lemma set_series_columns (name : text) (vs : list (value P)) (df : DataFrame P) :
  has_column name df = true -> columns (set_series name vs df) = columns df.
Proof.
  intro H. unfold set_series.
  destruct (positions name (columns df)) eqn:E; [|reflexivity].
  apply positions_nil in E. congruence.
Qed.

Lemma get_series_has_column (name : text) (df : DataFrame P) (vs : list (value P)) :
  get_series name df = Ok vs ->
  exists i, positions name (columns df) = [i] /\ vs = column_at i df.
Proof.
  unfold get_series.
  destruct (positions name (columns df)) as [|i [|? ?]]; try discriminate.
  intros [= <-]. now exists i.
Qed.

Lemma set_cells_length (i : nat) (vs : list (value P)) rs :
  length (set_cells i vs rs) = length rs.
Proof.
  revert vs. induction rs as [|r rs IH]; intros [|v vs]; cbn; auto.
Qed.

Lemma set_cells_map (i : nat) (f : value P -> value P) rs :
  set_cells i (map (fun r => f (nth i r CNaN)) rs) rs
  = map (fun r => set_nth i (f (nth i r CNaN)) r) rs.
Proof. induction rs as [|r rs IH]; cbn; [reflexivity|now rewrite IH]. Qed.

Lemma set_nth_length (A : Type) (i : nat) (v : A) (l : list A) :
  length (set_nth i v l) = length l.
Proof.
  revert i. induction l as [|x l IH]; intros [|i]; cbn; auto.
Qed.

Lemma nth_set_nth_same (A : Type) (i : nat) (v d : A) (l : list A) :
  i < length l -> nth i (set_nth i v l) d = v.
Proof.
  revert i. induction l as [|x l IH]; intros [|i]; cbn; intro H;
    try lia; auto. apply IH. lia.
Qed.

Lemma nth_set_nth_other (A : Type) (i j : nat) (v d : A) (l : list A) :
  i <> j -> nth j (set_nth i v l) d = nth j l d.
Proof.
  revert i j. induction l as [|x l IH]; intros [|i] [|j]; cbn; intro H;
    try congruence; auto.
Qed.


End Facts.
End FrameFacts.

(** ** Type coercion and validation *)

Module Validation.
Import Interferencias FrameFacts.

Section Facts.
Context {P : Scalars}.

Lemma coerce_column_unique (name : text) (df : DataFrame P) (i : nat) :
  positions name (columns df) = [i] ->
  coerce_column name df
  = Ok (mkFrame (columns df) (map (coerce_at i) (rows df)),
        count_na (map (fun r => to_numeric_cell (nth i r CNaN)) (rows df))).
Proof.
  intro Hp. unfold coerce_column, get_series, set_series. rewrite Hp. cbn.
  unfold to_numeric, column_at. rewrite map_map.
  now rewrite (set_cells_map i to_numeric_cell).
Qed.

Lemma has_column_of_positions (name : text) (df : DataFrame P) (i : nat) :
  positions name (columns df) = [i] -> has_column name df = true.
Proof.
  intro Hp. destruct (has_column name df) eqn:E; [reflexivity|].
  apply positions_nil in E. congruence.
Qed.

Lemma coerce_column_columns (name : text) (df df' : DataFrame P) (n : nat) :
  coerce_column name df = Ok (df', n) -> columns df' = columns df.
Proof.
  unfold coerce_column. destruct (get_series name df) as [vs|e] eqn:E;
    [|discriminate].
  intros [= <- _]. apply get_series_has_column in E as (i & Hi & _).
  apply set_series_columns. eapply has_column_of_positions; eauto.
Qed.

(** The frame [clean_and_validate_data] returns and the counts it prints,
    when RSSI and Channel each label exactly one column. *)
Lemma clean_and_validate_data_unique (df : DataFrame P) (i j : nat) :
  positions RSSI (columns df) = [i] ->
  positions Channel (columns df) = [j] ->
  let coerced := map (coerce_at j) (map (coerce_at i) (rows df)) in
  let kept := filter (complete [i; j]) coerced in
  let rssi_nulos :=
    count_na (map (fun r => to_numeric_cell (nth i r CNaN)) (rows df)) in
  let channel_nulos :=
    count_na (map (fun r => to_numeric_cell (nth j r CNaN))
                  (map (coerce_at i) (rows df))) in
  let removed := length (rows df) - length kept in
  clean_and_validate_data df
  = (MsgInitialShape (length (rows df)) (length (columns df))
       :: match filter (fun col => negb (has_column col df)) critical_columns with
          | [] => []
          | m :: ms => [MsgMissingColumns (m :: ms) (columns df)]
          end
       ++ (if 0 <? rssi_nulos then [MsgRssiNulls rssi_nulos] else [])
       ++ (if 0 <? channel_nulos then [MsgChannelNulls channel_nulos] else [])
       ++ (if 0 <? removed then [MsgRowsRemoved removed] else [])
       ++ [MsgFinalShape (length kept) (length (columns df))],
     Ok (mkFrame (columns df) kept)).
Proof.
  intros Hi Hj. cbv zeta. unfold clean_and_validate_data.
  fold RSSI Channel.
  rewrite (has_column_of_positions _ _ Hi), (coerce_column_unique _ _ Hi).
  set (df1 := mkFrame (columns df) (map (coerce_at i) (rows df))).
  assert (Hj1 : positions Channel (columns df1) = [j]) by exact Hj.
  rewrite (has_column_of_positions _ _ Hj1), (coerce_column_unique _ _ Hj1).
  set (df2 := mkFrame (columns df1) (map (coerce_at j) (rows df1))).
  unfold dropna. cbn [forallb].
  assert (Hi2 : positions RSSI (columns df2) = [i]) by exact Hi.
  assert (Hj2 : positions Channel (columns df2) = [j]) by exact Hj.
  rewrite (has_column_of_positions _ _ Hi2), (has_column_of_positions _ _ Hj2).
  cbn [andb flat_map]. rewrite Hi2, Hj2. cbn [app].
  subst df2 df1. cbn [rows columns]. rewrite !length_map.
  destruct (filter _ critical_columns); cbn [app]; rewrite <- ?app_assoc;
    reflexivity.
Qed.

Lemma positions_from_spec (name : text) (cols : list text) (k i : nat) :
  In i (map fst (filter (fun p => text_eqb name (snd p)) (enumerate k cols)))
  <-> k <= i /\ nth_error cols (i - k) = Some name.
Proof.
  revert k. induction cols as [|c cols IH]; intro k; cbn.
  - split; [tauto|]. intros [_ H]. destruct (i - k); discriminate.
  - destruct (text_eqb name c) eqn:E; cbn; rewrite IH.
    + apply text_eqb_eq in E. subst c. split.
      * intros [<-|[Hk Hn]].
        -- rewrite Nat.sub_diag. split; [lia|reflexivity].
        -- split; [lia|]. replace (i - k) with (S (i - S k)) by lia. exact Hn.
      * intros [Hk Hn]. destruct (Nat.eq_dec k i) as [->|Hne]; [now left|].
        right. split; [lia|].
        replace (i - k) with (S (i - S k)) in Hn by lia. exact Hn.
    + apply text_eqb_neq in E. split.
      * intros [Hk Hn]. split; [lia|].
        replace (i - k) with (S (i - S k)) by lia. exact Hn.
      * intros [Hk Hn]. destruct (Nat.eq_dec k i) as [->|Hne].
        -- rewrite Nat.sub_diag in Hn. cbn in Hn. congruence.
        -- split; [lia|].
           replace (i - k) with (S (i - S k)) in Hn by lia. exact Hn.
Qed.

Lemma positions_spec (name : text) (cols : list text) (i : nat) :
  In i (positions name cols) <-> nth_error cols i = Some name.
Proof.
  unfold positions. rewrite positions_from_spec, Nat.sub_0_r.
  split; [tauto|]. split; [lia|assumption].
Qed.

Lemma position_label (name : text) (cols : list text) (i : nat) :
  positions name cols = [i] -> nth_error cols i = Some name.
Proof. intro H. apply positions_spec. rewrite H. now left. Qed.


Lemma positions_distinct (a b : text) (cols : list text) (i j : nat) :
  a <> b -> positions a cols = [i] -> positions b cols = [j] -> i <> j.
Proof.
  intros Hab Hi Hj ->. apply position_label in Hi, Hj. congruence.
Qed.

Lemma RSSI_not_Channel : RSSI <> Channel.
Proof. discriminate. Qed.


Lemma complete_pair (i j : nat) (r : list (value P)) :
  complete [i; j] r = true
  <-> nth i r CNaN <> CNaN /\ nth j r CNaN <> CNaN.
Proof.
  unfold complete, row_has_na. cbn [existsb]. rewrite orb_false_r.
  rewrite negb_true_iff, orb_false_iff.
  destruct (nth i r CNaN), (nth j r CNaN); cbn; split; intros [? ?];
    split; congruence.
Qed.



(** A frame that lacks the RSSI or the Channel column makes cleaning raise:
    the coercions are guarded by [if ... in df.columns], the [dropna] that
    follows them is not. *)
Lemma clean_and_validate_data_raises (df : DataFrame P) :
  has_column RSSI df = false \/ has_column Channel df = false ->
  exists e, snd (clean_and_validate_data df) = Raise e.
Proof.
  intro Habs. unfold clean_and_validate_data. fold RSSI Channel.
  set (log0 := MsgInitialShape _ _ :: _). clearbody log0.
  destruct (if has_column RSSI df then coerce_column RSSI df else Ok (df, 0))
    as [[df1 n1]|e1] eqn:E1; [|now exists e1].
  assert (C1 : columns df1 = columns df).
  { destruct (has_column RSSI df); [|now inversion E1].
    eapply coerce_column_columns; eauto. }
  destruct (if has_column Channel df1 then coerce_column Channel df1
            else Ok (df1, 0)) as [[df2 n2]|e2] eqn:E2; [|now exists e2].
  assert (C2 : columns df2 = columns df1).
  { destruct (has_column Channel df1); [|now inversion E2].
    eapply coerce_column_columns; eauto. }
  unfold dropna, has_column in *. cbn [forallb]. rewrite C2, C1.
  destruct Habs as [-> | ->]; cbn; [|rewrite andb_false_r];
    now exists KeyError.
Qed.

Lemma missing_column_reported (df : DataFrame P) (col : text) :
  In col critical_columns -> has_column col df = false ->
  exists missing,
    In col missing
    /\ In (MsgMissingColumns missing (columns df))
          (fst (clean_and_validate_data df)).
Proof.
  intros Hin Habs.
  assert (Hm : In col (filter (fun c => negb (has_column c df))
                              critical_columns)).
  { apply filter_In. split; [assumption|now rewrite Habs]. }
  unfold clean_and_validate_data.
  destruct (filter _ critical_columns) as [|m ms] eqn:Ef; [destruct Hm|].
  exists (m :: ms). split; [assumption|].
  set (msg0 := MsgMissingColumns _ _).
  assert (Hlog : forall l, In msg0 ((MsgInitialShape (length (rows df))
                    (length (columns df)) :: [msg0]) ++ l))
    by (intro l; cbn; auto).
  destruct (if has_column (str "RSSI") df then _ else _) as [[df1 n1]|e1];
    [|cbn; auto].
  destruct (if has_column (str "Channel") df1 then _ else _) as [[df2 n2]|e2];
    [|cbn; rewrite ?in_app_iff; cbn; auto].
  destruct (dropna _ df2); cbn; rewrite ?in_app_iff; cbn; auto.
Qed.

End Facts.


End Validation.

(** ** A canonical column that is absent *)

Module SchemaGap.
Import Interferencias Validation.

(** C8.  When the loaded frame lacks the RSSI or the Channel column the
    warning about missing columns is printed, but cleaning raises and
    [analyze_wifi_interference] gives up on the file with no result. *)
Theorem absent_column_aborts {P : Scalars}
  (read_csv : read_csv_args -> option text -> result (DataFrame P))
  (file : option text) (df : DataFrame P) (col : text) :
  col = RSSI \/ col = Channel ->
  has_column col df = false ->
  snd (robust_csv_loader read_csv file) = Some df ->
  (exists missing,
     In col missing
     /\ In (MsgMissingColumns missing (columns df))
           (fst (clean_and_validate_data df)))
  /\ (exists e, snd (clean_and_validate_data df) = Raise e)
  /\ snd (analyze_wifi_interference read_csv file) = None.
Proof.
  intros Hcol Habs Hload.
  assert (Hraise : exists e, snd (clean_and_validate_data df) = Raise e).
  { apply clean_and_validate_data_raises.
    destruct Hcol as [-> | ->]; auto. }
  split; [|split; [exact Hraise|]].
  - apply missing_column_reported; [|assumption].
    destruct Hcol as [-> | ->]; cbn; auto.
  - unfold analyze_wifi_interference.
    destruct (robust_csv_loader read_csv file) as [log [df'|]];
      cbn in Hload; [|discriminate].
    injection Hload as ->. destruct Hraise as [e He].
    destruct (clean_and_validate_data df) as [log' r]. cbn in He. subst r.
    destruct e; reflexivity.
Qed.

Lemma absent_column_aborts_witness :
  let file := Some Sample.file_without_channel in
  (Channel = RSSI \/ Channel = Channel)
  /\ has_column Channel Sample.survey_without_channel = false
  /\ snd (robust_csv_loader Sample.plain_read_csv file)
     = Some Sample.survey_without_channel
  /\ snd (analyze_wifi_interference Sample.plain_read_csv file) = None.
Proof.
  cbv zeta.
  assert (H1 : Channel = RSSI \/ Channel = Channel) by now right.
  assert (H2 : has_column Channel Sample.survey_without_channel = false)
    by reflexivity.
  assert (H3 : snd (robust_csv_loader Sample.plain_read_csv
                      (Some Sample.file_without_channel))
               = Some Sample.survey_without_channel) by reflexivity.
  repeat (split; [assumption|]).
  exact (proj2 (proj2 (absent_column_aborts Sample.plain_read_csv
                         (Some Sample.file_without_channel) H1 H2 H3))).
Defined.

End SchemaGap.

(** ** Manual recovery *)

Module ManualRecovery.
Import Interferencias.

Section Facts.
Context {P : Scalars}.

Lemma manual_step_fit (n : nat) (data : list (list (value P))) (c : nat)
  (line : text) :
  manual_step n (data, c) line
  = (data ++ [fit_row n line],
     c + length (mismatched n [line])).
Proof.
  unfold manual_step, fit_row, mismatched. fold (fields_of line).
  cbn [filter].
  destruct (length (fields_of line) =? n) eqn:E.
  - apply Nat.eqb_eq in E. cbn [negb length].
    rewrite <- E, firstn_all, Nat.sub_diag, Nat.add_0_r. cbn [repeat].
    now rewrite app_nil_r.
  - apply Nat.eqb_neq in E. cbn [negb length].
    replace (c + 1) with (S c) by lia.
    destruct (n <? length (fields_of line)) eqn:E1.
    + apply Nat.ltb_lt in E1.
      replace (n - length (fields_of line)) with 0 by lia.
      cbn [repeat]. now rewrite app_nil_r.
    + apply Nat.ltb_ge in E1.
      assert (E2 : (length (fields_of line) <? n) = true)
        by (apply Nat.ltb_lt; lia).
      rewrite E2, firstn_all2 by lia. reflexivity.
Qed.

Lemma manual_fold (n : nat) (lines : list text) :
  forall (data : list (list (value P))) (c : nat),
  fold_left (manual_step n) lines (data, c)
  = (data ++ map (fit_row n) lines, c + length (mismatched n lines)).
Proof.
  induction lines as [|l lines IH]; intros data c; cbn [fold_left map].
  - now rewrite app_nil_r, Nat.add_0_r.
  - rewrite manual_step_fit, IH, <- app_assoc. cbn [app]. f_equal.
    unfold mismatched. cbn [filter].
    destruct (negb _); cbn [length]; lia.
Qed.

Lemma fit_row_cases (n : nat) (line : text) :
  let k := length (fields_of line) in
  length (fit_row n line) = n
  /\ (k = n -> fit_row n line = map CStr (fields_of line))
  /\ (n < k -> fit_row n line = map CStr (firstn n (fields_of line)))
  /\ (k < n -> fit_row n line
               = map CStr (fields_of line) ++ repeat CNaN (n - k)).
Proof.
  cbv zeta. unfold fit_row. repeat split.
  - rewrite length_app, length_map, length_firstn, repeat_length. lia.
  - intros <-. now rewrite firstn_all, Nat.sub_diag, app_nil_r.
  - intro H. replace (n - length (fields_of line)) with 0 by lia.
    now rewrite app_nil_r.
  - intro H. now rewrite firstn_all2 by lia.
Qed.


(** C2, as the code has it.  With fewer than two lines the loader raises
    [ValueError]; otherwise it returns a frame whose labels are the fields
    of line 1 and which has one row of exactly [n] cells per data line, in
    order: the fields unchanged when there are [n], the first [n] when
    there are more, the fields followed by missing values when there are
    fewer.  The number of corrected lines is printed when it is positive;
    the value returned is the frame alone. *)
Theorem manual_csv_loader_rows (content : text) :
  let lines := readlines content in
  let headers := fields_of (nth 1 lines []) in
  let n := length headers in
  let data := skipn 2 lines in
  let corrected := length (mismatched n data) in
  (length lines < 2
   /\ snd (manual_csv_loader (P:=P) (Some content)) = Raise ValueError)
  \/ (2 <= length lines
      /\ manual_csv_loader (Some content)
         = ([MsgHeaderCount n; MsgLineCount (length lines)]
              ++ (if 0 <? corrected then [MsgCorrected corrected] else []),
            Ok (mkFrame headers (map (fit_row n) data)))
      /\ length (map (fit_row (P:=P) n) data) = length data
      /\ forall line, In line data ->
           let k := length (fields_of line) in
           length (fit_row (P:=P) n line) = n
           /\ (k = n -> fit_row (P:=P) n line = map CStr (fields_of line))
           /\ (n < k ->
               fit_row (P:=P) n line = map CStr (firstn n (fields_of line)))
           /\ (k < n ->
               fit_row (P:=P) n line
               = map CStr (fields_of line) ++ repeat CNaN (n - k))).
Proof.
  cbv zeta. unfold manual_csv_loader.
  destruct (length (readlines content) <? 2) eqn:E.
  - left. apply Nat.ltb_lt in E. split; [assumption|reflexivity].
  - right. apply Nat.ltb_ge in E. split; [assumption|].
    fold (fields_of (nth 1 (readlines content) [])).
    rewrite manual_fold. cbn [app Nat.add]. repeat split.
    + apply length_map.
    + apply fit_row_cases.
    + now apply fit_row_cases.
    + now apply fit_row_cases.
    + now apply fit_row_cases.
Qed.

End Facts.

(** The claim that the count of corrected rows is returned fails: these two
    files give the same returned frame, one with no corrected row and one
    with one. *)
Lemma correction_count_not_returned :
  snd (manual_csv_loader (P:=Sample.IntScalars) (Some Sample.file_exact))
  = snd (manual_csv_loader (Some Sample.file_long_row))
  /\ fst (manual_csv_loader (P:=Sample.IntScalars) (Some Sample.file_exact))
     = [MsgHeaderCount 2; MsgLineCount 3]
  /\ fst (manual_csv_loader (P:=Sample.IntScalars) (Some Sample.file_long_row))
     = [MsgHeaderCount 2; MsgLineCount 3; MsgCorrected 1].
Proof. repeat split. Qed.

End ManualRecovery.

(** ** Python strings *)

Unset Implicit Arguments.

Module StrFacts.

Lemma drop_while_app_stop (p : ascii -> bool) (pre s : text) (c : ascii) :
  p c = false ->
  drop_while p (pre ++ c :: s) = drop_while p pre ++ c :: s.
Proof.
  intro Hc. induction pre as [|a pre IH]; cbn.
  - now rewrite Hc.
  - destruct (p a); [exact IH|reflexivity].
Qed.

Lemma drop_while_all (p : ascii -> bool) (s : text) :
  forallb p s = true -> drop_while p s = [].
Proof.
  induction s as [|a s IH]; cbn; [reflexivity|].
  destruct (p a); [exact IH|discriminate].
Qed.

Lemma drop_while_split (p : ascii -> bool) (s : text) :
  exists pre, s = pre ++ drop_while p s /\ forallb p pre = true.
Proof.
  induction s as [|a s (pre & E & Hp)]; cbn.
  - now exists [].
  - destruct (p a) eqn:Ea.
    + exists (a :: pre). cbn. rewrite Ea, Hp. split; [now f_equal|reflexivity].
    + now exists [].
Qed.

Lemma drop_while_head (p : ascii -> bool) (s s' : text) (c : ascii) :
  drop_while p s = c :: s' -> p c = false.
Proof.
  induction s as [|a s IH]; cbn; [discriminate|].
  destruct (p a) eqn:Ea; [exact IH|]. now intros [= <- _].
Qed.

Lemma drop_while_fixed (p : ascii -> bool) (s : text) (c : ascii) :
  p c = false -> drop_while p (c :: s) = c :: s.
Proof. intro H. cbn. now rewrite H. Qed.

Lemma drop_while_idem (p : ascii -> bool) (s : text) :
  drop_while p (drop_while p s) = drop_while p s.
Proof.
  destruct (drop_while p s) as [|c s'] eqn:E; [reflexivity|].
  apply drop_while_fixed. eapply drop_while_head; eauto.
Qed.

Lemma rstrip_app_space (s : text) (c : ascii) :
  is_space c = true -> rstrip (s ++ [c]) = rstrip s.
Proof.
  intro H. unfold rstrip. rewrite rev_app_distr. cbn. now rewrite H.
Qed.

Lemma lstrip_all (s : text) : forallb is_space s = true -> lstrip s = [].
Proof. apply drop_while_all. Qed.

Lemma rstrip_all (s : text) : forallb is_space s = true -> rstrip s = [].
Proof.
  intro H. unfold rstrip. rewrite drop_while_all; [reflexivity|].
  rewrite forallb_forall in *. intros c Hc. apply H. now apply in_rev.
Qed.

Lemma rstrip_cons_keep (s : text) (c : ascii) :
  is_space c = false -> rstrip (c :: s) = c :: rstrip s.
Proof.
  intro H. unfold rstrip. cbn [rev].
  rewrite (drop_while_app_stop _ (rev s) [] c H), rev_app_distr.
  reflexivity.
Qed.

Lemma rstrip_pre (pre s : text) (c : ascii) :
  is_space c = false -> rstrip (pre ++ c :: s) = pre ++ rstrip (c :: s).
Proof.
  intro H. unfold rstrip. rewrite rev_app_distr. cbn [rev].
  rewrite <- app_assoc. cbn [app].
  rewrite (drop_while_app_stop _ (rev s) (rev pre) c H).
  rewrite (drop_while_app_stop _ (rev s) [] c H).
  rewrite !rev_app_distr. cbn [rev app].
  now rewrite rev_involutive, <- app_assoc.
Qed.

(** [strip] strips on both sides, in either order. *)
Lemma strip_commutes (s : text) : rstrip (lstrip s) = lstrip (rstrip s).
Proof.
  unfold lstrip at 1.
  destruct (drop_while_split is_space s) as (pre & E & Hp).
  destruct (drop_while is_space s) as [|c t] eqn:Ed.
  - rewrite app_nil_r in E. subst pre.
    rewrite (rstrip_all _ Hp). reflexivity.
  - pose proof (drop_while_head _ _ _ _ Ed) as Hc.
    rewrite E. rewrite rstrip_pre by assumption.
    rewrite rstrip_cons_keep by assumption.
    unfold lstrip. rewrite (drop_while_app_stop _ pre _ _ Hc).
    rewrite (drop_while_all _ _ Hp). reflexivity.
Qed.

Lemma strip_app_space (s : text) (c : ascii) :
  is_space c = true -> strip (s ++ [c]) = strip s.
Proof.
  intro H. unfold strip. rewrite !strip_commutes.
  now rewrite rstrip_app_space.
Qed.

Lemma rstrip_idem (s : text) : rstrip (rstrip s) = rstrip s.
Proof.
  unfold rstrip. rewrite rev_involutive. now rewrite drop_while_idem.
Qed.

Lemma strip_bare (s : text) : bare (strip s).
Proof.
  split.
  - unfold strip. rewrite strip_commutes. apply drop_while_idem.
  - unfold strip. apply rstrip_idem.
Qed.

Lemma bare_strip (s : text) : bare s -> strip s = s.
Proof. intros [Hl Hr]. unfold strip. now rewrite Hl, Hr. Qed.


Lemma rstrip_split (s : text) :
  exists post, s = rstrip s ++ post /\ forallb is_space post = true.
Proof.
  unfold rstrip.
  destruct (drop_while_split is_space (rev s)) as (pre & E & Hp).
  exists (rev pre). split.
  - rewrite <- rev_app_distr, <- E. now rewrite rev_involutive.
  - rewrite forallb_forall in *. intros c Hc. apply Hp. now apply in_rev.
Qed.

(** [strip s] is [s] without a whitespace prefix and a whitespace suffix. *)
Lemma strip_split (s : text) :
  exists pre post, s = pre ++ strip s ++ post
                   /\ forallb is_space pre = true
                   /\ forallb is_space post = true.
Proof.
  destruct (drop_while_split is_space s) as (pre & E & Hp).
  destruct (rstrip_split (lstrip s)) as (post & E' & Hq).
  exists pre, post. repeat split; try assumption.
  unfold strip. rewrite <- E'. exact E.
Qed.

Lemma strip_occurs (s : text) : occurs (strip s) s.
Proof. destruct (strip_split s) as (pre & post & E & _). now exists pre, post. Qed.

Lemma strip_incl (s : text) (c : ascii) : In c (strip s) -> In c s.
Proof.
  destruct (strip_split s) as (pre & post & E & _). intro H.
  rewrite E, !in_app_iff. auto.
Qed.

Lemma strip_blank (s : text) : forallb is_space s = true -> strip s = [].
Proof. intro H. unfold strip. now rewrite (lstrip_all _ H). Qed.

Lemma strip_nil_blank (s : text) : strip s = [] -> forallb is_space s = true.
Proof.
  intro H. destruct (strip_split s) as (pre & post & E & Hp & Hq).
  rewrite H in E. cbn in E. subst s. now rewrite forallb_app, Hp, Hq.
Qed.

End StrFacts.

(** ** Regular expressions *)

Module RegexFacts.






Lemma starts_with_spec (p s : text) :
  starts_with p s = true <-> exists post, s = p ++ post.
Proof.
  revert s. induction p as [|a p IH]; intros [|b s]; cbn.
  - split; [now exists []|reflexivity].
  - split; [now exists (b :: s)|reflexivity].
  - split; [discriminate|]. intros [post H]. discriminate.
  - rewrite andb_true_iff, IH. split.
    + intros [Hab [post ->]]. apply Ascii.eqb_eq in Hab. subst. now exists post.
    + intros [post [= -> ->]]. split; [apply Ascii.eqb_refl|now exists post].
Qed.


End RegexFacts.

(** ** The anomaly classifier *)

Module Classifier.
Import StrFacts RegexFacts.

Lemma is_space_lower (c : ascii) : is_space (lower_char c) = is_space c.
Proof. destruct c as [[] [] [] [] [] [] [] []]; reflexivity. Qed.

Lemma lower_strip_commute (s : text) : lower (strip s) = strip (lower s).
Proof.
  assert (Hd : forall t, lower (drop_while is_space t)
                         = drop_while is_space (lower t)).
  { induction t as [|c t IH]; cbn; [reflexivity|].
    rewrite is_space_lower. destruct (is_space c); [exact IH|reflexivity]. }
  unfold strip, rstrip, lstrip, lower in *.
  now rewrite map_rev, Hd, map_rev, Hd.
Qed.
















End Classifier.

(** ** Parsing and printing timestamps *)

Module DatetimeFacts.
Import StrFacts.

Local Open Scope char_scope.





Lemma digit_char_facts (n : nat) :
  (n < 10)%nat ->
  is_digit (digit_char n) = true /\ is_space (digit_char n) = false
  /\ digit_value (digit_char n) = n.
Proof.
  intro H. do 10 (destruct n as [|n]; [now vm_compute|]). lia.
Qed.












Lemma strip_digits_like (c : ascii) (mid : text) (e : ascii) :
  is_space c = false -> is_space e = false ->
  strip (c :: mid ++ [e]) = c :: mid ++ [e].
Proof.
  intros Hc He. apply bare_strip. split.
  - now apply drop_while_fixed.
  - change (c :: mid ++ [e]) with ((c :: mid) ++ e :: []).
    rewrite rstrip_pre by assumption. now rewrite rstrip_cons_keep.
Qed.




End DatetimeFacts.

(** ** The repair of one field *)

Module FieldRepair.
Import StrFacts FrameFacts DatetimeFacts.

Lemma mem_In (v : text) (l : list text) : mem v l = true <-> In v l.
Proof.
  unfold mem. rewrite existsb_exists. split.
  - intros (x & Hx & E). apply text_eqb_eq in E. now subst.
  - intro H. exists v. split; [assumption|apply text_eqb_refl].
Qed.

Lemma is_empty_nil (s : text) : is_empty s = true <-> s = [].
Proof. destruct s; cbn; split; congruence. Qed.

(** The guard of [repair_date_field] and of [looks_like_date]. *)
Lemma blank_guard (value : text) :
  is_empty value || text_eqb (strip value) [] = true <-> strip value = [].
Proof.
  rewrite orb_true_iff, is_empty_nil, text_eqb_eq. split; [|auto].
  intros [->|H]; [reflexivity|assumption].
Qed.

Lemma try_formats_some (v : text) (fmts : list text) (r : text) :
  try_formats v fmts = Some r
  <-> exists fmt d, first_parse v fmts fmt d /\ r = strftime d.
Proof.
  unfold first_parse. induction fmts as [|f fmts IH]; cbn [try_formats].
  - split; [discriminate|]. intros (fmt & d & (pre & post & E & _) & _).
    destruct pre; discriminate.
  - destruct (strptime v f) as [d0|] eqn:Ef.
    + split.
      * intros [= <-]. exists f, d0. split; [|reflexivity].
        exists [], fmts. repeat split; [intros ? []|assumption].
      * intros (fmt & d & (pre & post & E & Hpre & Hfmt) & ->).
        destruct pre as [|p pre]; injection E as <- ->.
        -- congruence.
        -- rewrite (Hpre f (or_introl eq_refl)) in Ef. discriminate.
    + rewrite IH. split.
      * intros (fmt & d & (pre & post & -> & Hpre & Hfmt) & ->).
        exists fmt, d. split; [|reflexivity]. exists (f :: pre), post.
        repeat split; [|assumption]. intros g [<-|Hg]; auto.
      * intros (fmt & d & (pre & post & E & Hpre & Hfmt) & ->).
        destruct pre as [|p pre]; injection E as <- ->; [congruence|].
        exists fmt, d. split; [|reflexivity]. exists pre, post.
        repeat split; [|assumption]. intros g Hg. apply Hpre. now right.
Qed.






End FieldRepair.

(** ** Repairing twice *)

Module Idempotence.
Import StrFacts FrameFacts DatetimeFacts FieldRepair.

Lemma digit_mod (k : nat) :
  is_digit (digit_char (k mod 10)) = true
  /\ is_space (digit_char (k mod 10)) = false.
Proof.
  assert (B : k mod 10 < 10) by now apply Nat.mod_upper_bound.
  destruct (digit_char_facts _ B) as (? & ? & _). now split.
Qed.

Lemma strftime_chars (d : datetime) (c : ascii) :
  In c (strftime d) -> stamp_char c.
Proof.
  unfold strftime, pad4, pad2, stamp_char. cbn [app In]. intro H.
  repeat (destruct H as [<-|H];
          [first [left; apply digit_mod | right; left; reflexivity
                 | right; right; left; reflexivity
                 | right; right; right; reflexivity]|]).
  destruct H.
Qed.

Lemma strftime_strip (d : datetime) : strip (strftime d) = strftime d.
Proof.
  unfold strftime, pad4, pad2. cbn [app].
  destruct (digit_mod (year d / 1000)) as [_ S1].
  destruct (digit_mod (second d)) as [_ S2].
  exact (strip_digits_like _
           [_; _; _; _; _; _; _; _; _; _; _; _; _; _; _; _; _] _ S1 S2).
Qed.

Lemma strftime_not_nil (d : datetime) : strftime d <> [].
Proof. discriminate. Qed.

Lemma strftime_bare (d : datetime) : bare (strftime d).
Proof. rewrite <- strftime_strip. apply strip_bare. Qed.





(** The value returned is the value given, or a bare text that is not
    empty; its characters are those of the value and of timestamps. *)
Lemma repair_shape (now : datetime) (v : text) :
  repair_date_field now v = v
  \/ (repair_date_field now v <> [] /\ bare (repair_date_field now v)).
Proof.
  unfold repair_date_field.
  destruct (is_empty v || text_eqb (strip v) []) eqn:G; [now left|].
  right.
  assert (Hs : strip v <> []).
  { intro H. apply blank_guard in H. congruence. }
  destruct (text_eqb (upper (strip v)) (str "OPEN"));
    [split; [apply strftime_not_nil|apply strftime_bare]|].
  destruct (mem (upper (strip v)) non_date_values);
    [split; [apply strftime_not_nil|apply strftime_bare]|].
  destruct (try_formats (strip v) formats_to_try) as [r|] eqn:Et.
  - apply try_formats_some in Et as (fmt & d & _ & ->).
    split; [apply strftime_not_nil|apply strftime_bare].
  - split; [assumption|apply strip_bare].
Qed.

Lemma repair_chars (now : datetime) (v : text) (c : ascii) :
  In c (repair_date_field now v) -> In c v \/ stamp_char c.
Proof.
  unfold repair_date_field.
  destruct (is_empty v || text_eqb (strip v) []); [now left|].
  destruct (text_eqb (upper (strip v)) (str "OPEN"));
    [right; eapply strftime_chars; eauto|].
  destruct (mem (upper (strip v)) non_date_values);
    [right; eapply strftime_chars; eauto|].
  destruct (try_formats (strip v) formats_to_try) as [r|] eqn:Et.
  - apply try_formats_some in Et as (fmt & d & _ & ->).
    right. eapply strftime_chars; eauto.
  - left. now apply strip_incl.
Qed.

(** *** Fields and lines *)

Lemma split_not_nil (sep : ascii) (s : text) : split sep s <> [].
Proof.
  destruct s as [|c s]; cbn; [discriminate|].
  destruct (Ascii.eqb c sep); [discriminate|].
  destruct (split sep s); discriminate.
Qed.

Lemma join_split (sep : ascii) (s : text) : join sep (split sep s) = s.
Proof.
  induction s as [|c s IH]; [reflexivity|]. cbn [split].
  destruct (Ascii.eqb c sep) eqn:E.
  - apply Ascii.eqb_eq in E. subst c. pose proof (split_not_nil sep s) as Hn.
    cbn [join]. destruct (split sep s); [congruence|].
    cbn [app]. now rewrite IH.
  - pose proof (split_not_nil sep s) as Hn.
    destruct (split sep s) as [|f fs]; [congruence|].
    cbn [join] in *. destruct fs; cbn [app]; now rewrite IH.
Qed.

Lemma split_no_sep (sep : ascii) (s : text) :
  Forall (fun f => ~ In sep f) (split sep s).
Proof.
  induction s as [|c s IH]; cbn [split].
  - constructor; [intros []|constructor].
  - destruct (Ascii.eqb c sep) eqn:E.
    + constructor; [intros []|assumption].
    + apply Ascii.eqb_neq in E. destruct (split sep s) as [|f fs].
      * constructor; [|constructor]. intros [H|[]]. congruence.
      * inversion IH; subst. constructor; [|assumption].
        intros [H|H]; [congruence|contradiction].
Qed.

Lemma split_app_sep (sep : ascii) (f t : text) :
  ~ In sep f -> split sep (f ++ sep :: t) = f :: split sep t.
Proof.
  induction f as [|c f IH]; intro H; cbn [app split].
  - now rewrite Ascii.eqb_refl.
  - assert (E : Ascii.eqb c sep = false).
    { apply Ascii.eqb_neq. intros ->. apply H. now left. }
    rewrite E, IH; [reflexivity|]. intro Hin. apply H. now right.
Qed.

Lemma split_single (sep : ascii) (f : text) :
  ~ In sep f -> split sep f = [f].
Proof.
  induction f as [|c f IH]; intro H; cbn [split]; [reflexivity|].
  assert (E : Ascii.eqb c sep = false).
  { apply Ascii.eqb_neq. intros ->. apply H. now left. }
  rewrite E, IH; [reflexivity|]. intro Hin. apply H. now right.
Qed.

Lemma split_join (sep : ascii) (fs : list text) :
  fs <> [] -> Forall (fun f => ~ In sep f) fs ->
  split sep (join sep fs) = fs.
Proof.
  induction fs as [|f fs IH]; [congruence|]. intros _ Hall.
  inversion Hall as [|? ? Hf Hfs]; subst. cbn [join].
  destruct fs as [|g fs]; [now apply split_single|].
  rewrite split_app_sep by assumption. f_equal.
  apply IH; [discriminate|assumption].
Qed.

Lemma join_chars (sep : ascii) (fs : list text) (c : ascii) :
  In c (join sep fs) -> c = sep \/ exists f, In f fs /\ In c f.
Proof.
  induction fs as [|f fs IH]; cbn [join]; [intros []|].
  destruct fs as [|g fs].
  - intro H. right. exists f. split; [now left|assumption].
  - rewrite in_app_iff. intros [H|[H|H]].
    + right. exists f. split; [now left|assumption].
    + now left.
    + destruct (IH H) as [->|(f' & Hf & Hc)]; [now left|].
      right. exists f'. split; [now right|assumption].
Qed.

Lemma split_chars (sep : ascii) (s f : text) (c : ascii) :
  In f (split sep s) -> In c f -> In c s.
Proof.
  intros Hf Hc. rewrite <- (join_split sep s).
  revert Hf. generalize (split sep s). intro fs.
  induction fs as [|g fs IH]; [intros []|]. cbn [join].
  intros [->|Hf].
  - destruct fs; [assumption|]. apply in_app_iff. now left.
  - destruct fs as [|h fs]; [destruct Hf|].
    apply in_app_iff. right. right. now apply IH.
Qed.

Lemma universal_newlines_no_CR (s : text) :
  ~ In CR (universal_newlines s).
Proof.
  induction s as [|c s IH]; cbn [universal_newlines]; [intros []|].
  destruct (Ascii.eqb c CR) eqn:E.
  - destruct s as [|d s]; [intros [H|[]]; discriminate|].
    destruct (Ascii.eqb d LF); [assumption|].
    intros [H|H]; [discriminate|contradiction].
  - apply Ascii.eqb_neq in E. intros [H|H]; [congruence|contradiction].
Qed.

Lemma universal_newlines_id (s : text) :
  ~ In CR s -> universal_newlines s = s.
Proof.
  induction s as [|c s IH]; intro H; cbn [universal_newlines]; [reflexivity|].
  assert (E : Ascii.eqb c CR = false).
  { apply Ascii.eqb_neq. intros ->. apply H. now left. }
  rewrite E, IH; [reflexivity|]. intro Hin. apply H. now right.
Qed.

(** A line read from a file is a run of inline characters, followed by a
    line feed unless it is the last. *)
Lemma split_lines_shape (s : text) :
  ~ In CR s ->
  Forall (fun l => exists body, (l = body ++ [LF] \/ l = body)
                                /\ Forall inline body) (split_lines s).
Proof.
  induction s as [|c s IH]; intro H; cbn [split_lines]; [constructor|].
  assert (Hs : ~ In CR s) by (intro Hin; apply H; now right).
  specialize (IH Hs).
  destruct (Ascii.eqb c LF) eqn:E.
  - constructor; [|assumption]. exists []. split; [now left|constructor].
  - apply Ascii.eqb_neq in E.
    assert (Hc : inline c).
    { split; [assumption|]. intros ->. apply H. now left. }
    destruct (split_lines s) as [|l ls].
    + constructor; [|constructor]. exists [c]. split; [now right|].
      constructor; [assumption|constructor].
    + inversion IH as [|? ? (body & Hb & Hall) Hls]; subst.
      constructor; [|assumption]. exists (c :: body).
      split; [|now constructor]. destruct Hb as [->| ->]; auto.
Qed.

Lemma readlines_shape (content : text) :
  Forall (fun l => exists body, (l = body ++ [LF] \/ l = body)
                                /\ Forall inline body) (readlines content).
Proof. apply split_lines_shape, universal_newlines_no_CR. Qed.

Lemma split_lines_line (l rest : text) :
  ~ In LF l -> split_lines (l ++ LF :: rest) = (l ++ [LF]) :: split_lines rest.
Proof.
  induction l as [|c l IH]; intro H; cbn [app split_lines].
  - reflexivity.
  - assert (E : Ascii.eqb c LF = false).
    { apply Ascii.eqb_neq. intros ->. apply H. now left. }
    rewrite E, IH; [reflexivity|]. intro Hin. apply H. now right.
Qed.

(** Reading back what was written gives the lines written, each with its
    line feed. *)
Lemma readlines_write_lines (ls : list text) :
  Forall (Forall inline) ls ->
  readlines (write_lines ls) = map (fun l => l ++ [LF]) ls.
Proof.
  intro H. unfold readlines. rewrite universal_newlines_id.
  - unfold write_lines. induction H as [|l ls Hl Hls IH]; [reflexivity|].
    cbn [map concat]. rewrite <- app_assoc. cbn [app].
    rewrite split_lines_line, IH; [reflexivity|].
    intro Hin. rewrite Forall_forall in Hl. now destruct (Hl _ Hin).
  - unfold write_lines. intro Hin. apply in_concat in Hin as (x & Hx & Hin).
    apply in_map_iff in Hx as (l & <- & Hl).
    apply in_app_iff in Hin as [Hin|[Hin|[]]]; [|discriminate].
    rewrite Forall_forall in H. specialize (H l Hl).
    rewrite Forall_forall in H. now destruct (H _ Hin).
Qed.

Lemma LF_is_space : is_space LF = true.
Proof. reflexivity. Qed.

(** The stripped form of a line read from a file has inline characters
    only. *)
Lemma strip_line_inline (content l : text) :
  In l (readlines content) -> Forall inline (strip l).
Proof.
  intro Hl. pose proof (readlines_shape content) as H.
  rewrite Forall_forall in H. destruct (H l Hl) as (body & Hb & Hall).
  assert (E : strip l = strip body).
  { destruct Hb as [->| ->]; [apply strip_app_space, LF_is_space|reflexivity]. }
  rewrite E, Forall_forall in *. intros c Hc. apply Hall.
  now apply strip_incl.
Qed.

(** *** The loops of [repair_date_issues] *)

Lemma set_nth_same (k : nat) (fs : list text) :
  set_nth k (nth k fs []) fs = fs.
Proof.
  revert k. induction fs as [|f fs IH]; intros [|k]; cbn; auto.
  now rewrite IH.
Qed.

Lemma field_step_fields (clock : nat -> nat -> datetime) (i : nat)
  (fs : list text) (n : nat) (log : list msg) (k : nat) :
  exists n' log',
    repair_field_step clock i (fs, n, log) k
    = (repaired_field clock i fs k, n', log').
Proof.
  unfold repair_field_step, repaired_field.
  destruct (k <? length fs); [|now exists n, log].
  destruct (text_eqb _ _) eqn:E; cbn [negb].
  - apply text_eqb_eq in E. rewrite E, set_nth_same. now exists n, log.
  - eexists _, _. reflexivity.
Qed.

Lemma field_fold_fields (clock : nat -> nat -> datetime) (i : nat)
  (idxs : list nat) :
  forall fs n log, exists n' log',
    fold_left (repair_field_step clock i) idxs (fs, n, log)
    = (repaired_fields clock i idxs fs, n', log').
Proof.
  unfold repaired_fields.
  induction idxs as [|k idxs IH]; intros fs n log; cbn [fold_left].
  - now exists n, log.
  - destruct (field_step_fields clock i fs n log k) as (n1 & log1 & ->).
    apply IH.
Qed.

Lemma line_step_lines (clock : nat -> nat -> datetime) (idxs : list nat)
  (acc : list text) (n : nat) (log : list msg) (l : nat * text) :
  exists n' log',
    repair_line_step clock idxs (acc, n, log) l
    = (acc ++ [repaired_line clock idxs l], n', log').
Proof.
  unfold repair_line_step, repaired_line. destruct l as [i line]. cbn [fst snd].
  destruct (i <? 2); [now exists n, log|].
  destruct (field_fold_fields clock i idxs (split comma (strip line)) n log)
    as (n1 & log1 & ->).
  eexists _, _. reflexivity.
Qed.

Lemma line_fold_lines (clock : nat -> nat -> datetime) (idxs : list nat)
  (ls : list (nat * text)) :
  forall acc n log, exists n' log',
    fold_left (repair_line_step clock idxs) ls (acc, n, log)
    = (acc ++ map (repaired_line clock idxs) ls, n', log').
Proof.
  induction ls as [|l ls IH]; intros acc n log; cbn [fold_left map].
  - exists n, log. now rewrite app_nil_r.
  - destruct (line_step_lines clock idxs acc n log l) as (n1 & log1 & ->).
    destruct (IH (acc ++ [repaired_line clock idxs l]) n1 log1)
      as (n2 & log2 & ->).
    exists n2, log2. now rewrite <- app_assoc.
Qed.

(** What [repair_date_issues] returns on a file that opens. *)
Lemma repair_date_issues_returns (clock : nat -> nat -> datetime)
  (content : text) :
  let lines := readlines content in
  snd (repair_date_issues clock (Some content))
  = if length lines <? 2 then Raise ValueError
    else Ok (Some (write_lines
                     (map (repaired_line clock (date_indices lines))
                          (enumerate 0 lines)))).
Proof.
  cbv zeta. unfold repair_date_issues, analyze_date_problems, date_indices.
  destruct (length (readlines content) <? 2); [reflexivity|].
  destruct (sample_lines _ _ _ _) as [samples problems].
  pose proof (split_not_nil comma (strip (nth 1 (readlines content) []))) as Hn.
  destruct (split comma (strip (nth 1 (readlines content) []))) as [|h hs] eqn:Eh;
    [congruence|].
  destruct (line_fold_lines clock (map fst (find_date_columns (h :: hs)))
              (enumerate 0 (readlines content)) [] 0 [])
    as (n' & log' & ->).
  reflexivity.
Qed.

(** *** What the repair of the fields of a line preserves *)

Section Fields.
Variable clock : nat -> nat -> datetime.
Variable i : nat.

Lemma repaired_fields_invariant (I : list text -> Prop) :
  (forall fs k, I fs -> I (repaired_field clock i fs k)) ->
  forall idxs fs, I fs -> I (repaired_fields clock i idxs fs).
Proof.
  intros Hstep idxs. unfold repaired_fields.
  induction idxs as [|k idxs IH]; intros fs H; cbn [fold_left]; auto.
Qed.

Lemma Forall2_set_nth (R : text -> text -> Prop) (a b : list text)
  (k : nat) (v : text) :
  Forall2 R a b -> (forall x, R x (nth k b []) -> R x v) ->
  Forall2 R a (set_nth k v b).
Proof.
  intro H. revert k. induction H as [|x y a b Hxy Hab IH]; intros k Hv.
  - destruct k; constructor.
  - destruct k as [|k]; cbn [set_nth].
    + constructor; [now apply Hv|assumption].
    + constructor; [assumption|]. now apply IH.
Qed.

Lemma Forall_set_nth (Q : text -> Prop) (l : list text) (k : nat) (v : text) :
  Forall Q l -> Q v -> Forall Q (set_nth k v l).
Proof.
  intros H Hv. revert k. induction H as [|x l Hx Hl IH]; intros [|k];
    cbn [set_nth]; constructor; auto.
Qed.

Lemma repaired_fields_shape (idxs : list nat) (fs : list text) :
  Forall2 kept_or_bare fs (repaired_fields clock i idxs fs).
Proof.
  apply (repaired_fields_invariant (fun fs' => Forall2 kept_or_bare fs fs')).
  - intros fs' k H. unfold repaired_field.
    destruct (k <? length fs'); [|assumption].
    apply Forall2_set_nth; [assumption|]. intros x Hx.
    destruct (repair_shape (clock i k) (nth k fs' [])) as [->|Hb];
      [assumption|now right].
  - clear. induction fs; constructor; [now left|assumption].
Qed.

Lemma repaired_fields_chars (Q : ascii -> Prop) (idxs : list nat)
  (fs : list text) :
  (forall c, stamp_char c -> Q c) ->
  Forall (Forall Q) fs -> Forall (Forall Q) (repaired_fields clock i idxs fs).
Proof.
  intro HQ. apply (repaired_fields_invariant (Forall (Forall Q))).
  intros fs' k H. unfold repaired_field.
  destruct (k <? length fs') eqn:E; [|assumption].
  apply Nat.ltb_lt in E. apply Forall_set_nth; [assumption|].
  rewrite Forall_forall. intros c Hc.
  apply repair_chars in Hc as [Hc|Hc]; [|now apply HQ].
  rewrite Forall_forall in H. specialize (H (nth k fs' []) (nth_In _ _ E)).
  rewrite Forall_forall in H. now apply H.
Qed.

Lemma repaired_fields_not_nil (idxs : list nat) (fs : list text) :
  fs <> [] -> repaired_fields clock i idxs fs <> [].
Proof.
  intros H E. pose proof (repaired_fields_shape idxs fs) as F.
  rewrite E in F. inversion F. congruence.
Qed.




End Fields.


(** *** Bare lines *)

Lemma drop_while_length (p : ascii -> bool) (s : text) :
  length (drop_while p s) <= length s.
Proof.
  induction s as [|c s IH]; cbn; [lia|]. destruct (p c); cbn; lia.
Qed.

Lemma lstrip_fixed (s : text) : lstrip s = s <-> starts_solid s.
Proof.
  destruct s as [|c s]; cbn; [tauto|]. destruct (is_space c) eqn:E.
  - split; [|discriminate]. intro H.
    pose proof (drop_while_length is_space s) as L.
    apply (f_equal (@length ascii)) in H. cbn in H. unfold lstrip in H. lia.
  - tauto.
Qed.

Lemma rstrip_fixed (s : text) : rstrip s = s <-> starts_solid (rev s).
Proof.
  rewrite <- lstrip_fixed. unfold rstrip, lstrip. split; intro H.
  - apply (f_equal (@rev ascii)) in H. now rewrite rev_involutive in H.
  - rewrite H. apply rev_involutive.
Qed.

Lemma join_starts_solid (sep : ascii) (fs fs' : list text) :
  is_space sep = false -> Forall2 kept_or_solid fs fs' ->
  starts_solid (join sep fs) -> starts_solid (join sep fs').
Proof.
  intros Hsep H. destruct H as [|f f' rest rest' Hf Hrest]; [auto|].
  assert (Hlen : length rest = length rest') by (eapply Forall2_length; eauto).
  cbn [join]. destruct Hf as [->|[Hne Hs]].
  - destruct rest, rest'; try discriminate; [auto|].
    destruct f; cbn; auto.
  - destruct f' as [|c t]; [congruence|]. intros _.
    destruct rest'; exact Hs.
Qed.

Lemma join_snoc (sep : ascii) (l : list text) (x : text) :
  l <> [] -> join sep (l ++ [x]) = join sep l ++ sep :: x.
Proof.
  induction l as [|f l IH]; [congruence|]. intros _.
  destruct l as [|g l]; [reflexivity|].
  change ((f :: g :: l) ++ [x]) with (f :: (g :: l) ++ [x]).
  cbn [join]. cbn [app]. rewrite <- app_assoc. cbn [app].
  f_equal. f_equal. apply IH. discriminate.
Qed.

Lemma rev_join (sep : ascii) (fs : list text) :
  rev (join sep fs) = join sep (rev (map (@rev ascii) fs)).
Proof.
  induction fs as [|f fs IH]; [reflexivity|].
  destruct fs as [|g fs]; [reflexivity|].
  change (join sep (f :: g :: fs)) with (f ++ sep :: join sep (g :: fs)).
  rewrite rev_app_distr.
  change (rev (sep :: join sep (g :: fs)))
    with (rev (join sep (g :: fs)) ++ [sep]).
  rewrite IH.
  change (rev (map (@rev ascii) (f :: g :: fs)))
    with (rev (map (@rev ascii) (g :: fs)) ++ [rev f]).
  rewrite join_snoc, <- app_assoc; [reflexivity|].
  cbn [map rev]. intro E. apply app_eq_nil in E as [_ E]. discriminate.
Qed.

Lemma Forall2_rev (A : Type) (R : A -> A -> Prop) (l l' : list A) :
  Forall2 R l l' -> Forall2 R (rev l) (rev l').
Proof.
  induction 1 as [|x y l l' Hxy Hl IH]; cbn; [constructor|].
  apply Forall2_app; [assumption|]. now repeat constructor.
Qed.

Lemma Forall2_map_rev (fs fs' : list text) :
  Forall2 kept_or_bare fs fs' ->
  Forall2 kept_or_solid (map (@rev ascii) fs) (map (@rev ascii) fs').
Proof.
  induction 1 as [|x y l l' Hxy Hl IH]; cbn; constructor; [|assumption].
  destruct Hxy as [->|[Hne [_ Hr]]]; [now left|]. right. split.
  - intro E. apply Hne. apply (f_equal (@rev ascii)) in E.
    now rewrite rev_involutive in E.
  - now apply rstrip_fixed.
Qed.

Lemma Forall2_weaken (fs fs' : list text) :
  Forall2 kept_or_bare fs fs' -> Forall2 kept_or_solid fs fs'.
Proof.
  induction 1 as [|x y l l' Hxy Hl IH]; constructor; [|assumption].
  destruct Hxy as [->|[Hne [Hl' _]]]; [now left|]. right.
  split; [assumption|now apply lstrip_fixed].
Qed.

(** Joining repaired fields of a bare line gives a bare line. *)
Lemma join_bare (fs fs' : list text) :
  Forall2 kept_or_bare fs fs' ->
  bare (join comma fs) -> bare (join comma fs').
Proof.
  intros H [Hl Hr]. split.
  - apply lstrip_fixed. apply (join_starts_solid comma fs fs');
      [reflexivity|now apply Forall2_weaken|now apply lstrip_fixed].
  - apply rstrip_fixed. rewrite rev_join.
    apply (join_starts_solid comma (rev (map (@rev ascii) fs)));
      [reflexivity|now apply Forall2_rev, Forall2_map_rev|].
    rewrite <- rev_join. now apply rstrip_fixed.
Qed.

(** *** The whole file *)

Lemma stamp_char_inline (c : ascii) : stamp_char c -> inline c.
Proof.
  intros [H | [ -> | [ -> | -> ]]]; try (split; discriminate).
  split; intros ->; discriminate.
Qed.

Lemma stamp_char_not_comma (c : ascii) : stamp_char c -> c <> comma.
Proof.
  intros [H | [ -> | [ -> | -> ]]]; try discriminate. intros ->. discriminate.
Qed.

Lemma split_fields_chars (Q : ascii -> Prop) (s : text) :
  Forall Q s -> Forall (Forall Q) (split comma s).
Proof.
  intro H. rewrite Forall_forall. intros f Hf.
  rewrite Forall_forall in *. intros c Hc. apply H.
  eapply split_chars; eauto.
Qed.

Lemma repaired_fields_no_comma (clock : nat -> nat -> datetime) (i : nat)
  (idxs : list nat) (s : text) :
  Forall (fun f => ~ In comma f)
         (repaired_fields clock i idxs (split comma s)).
Proof.
  assert (H : Forall (Forall (fun c => c <> comma))
                (repaired_fields clock i idxs (split comma s))).
  { apply repaired_fields_chars; [apply stamp_char_not_comma|].
    pose proof (split_no_sep comma s) as Hs.
    eapply Forall_impl; [|exact Hs]. intros f Hf.
    rewrite Forall_forall. intros c Hc ->. contradiction. }
  eapply Forall_impl; [|exact H]. intros f Hf Hin.
  rewrite Forall_forall in Hf. now apply (Hf comma).
Qed.



Lemma enumerate_In (A : Type) (l : list A) (s i : nat) (x : A) :
  In (i, x) (enumerate s l) -> In x l.
Proof.
  revert s. induction l as [|y l IH]; intro s; cbn; [tauto|].
  intros [[= _ ->]|H]; [now left|right; eauto].
Qed.

Lemma enumerate_length (A : Type) (l : list A) (s : nat) :
  length (enumerate s l) = length l.
Proof. revert s. induction l; intro s; cbn; auto. Qed.

Lemma repaired_lines_inline (clock : nat -> nat -> datetime) (idxs : list nat)
  (content : text) :
  Forall (Forall inline)
         (map (repaired_line clock idxs) (enumerate 0 (readlines content))).
Proof.
  rewrite Forall_forall. intros r Hr.
  apply in_map_iff in Hr as ([i l] & <- & Hl). apply enumerate_In in Hl.
  pose proof (strip_line_inline content l Hl) as Hs.
  unfold repaired_line. cbn [fst snd]. destruct (i <? 2); [assumption|].
  rewrite Forall_forall. intros c Hc.
  apply join_chars in Hc as [->|(f & Hf & Hc)]; [split; discriminate|].
  pose proof (repaired_fields_chars clock i inline idxs
                (split comma (strip l)) stamp_char_inline
                (split_fields_chars inline _ Hs)) as H.
  rewrite Forall_forall in H. specialize (H f Hf).
  rewrite Forall_forall in H. now apply H.
Qed.





End Idempotence.

(** ** The prepared data of the geographic analysis *)

Module PreparedData.
Import Wardriving FrameFacts Validation.

Section Facts.
Context {P : Scalars}.








Lemma dropna_columns (names : list text) (df df' : DataFrame P) :
  dropna names df = Ok df' ->
  columns df' = columns df /\ forall r, In r (rows df') -> In r (rows df).
Proof.
  unfold dropna. destruct (forallb _ names); [|discriminate].
  intros [= <-]. cbn. split; [reflexivity|]. intros r Hr.
  now apply filter_In in Hr.
Qed.



(** The three conversions of a column. *)
Lemma to_int_column_columns (name : text) (df df' : DataFrame P) :
  to_int_column name df = Ok df' -> columns df' = columns df.
Proof.
  unfold to_int_column.
  destruct (has_column name df) eqn:Hh; [|now intros [= <-]].
  destruct (get_series name df) as [vs|e]; cbn [bind]; [|discriminate].
  destruct (all_some _) as [vs'|]; [|discriminate]. intros [= <-].
  now apply set_series_columns.
Qed.

Lemma to_numeric_column_columns (name : text) (df df' : DataFrame P) :
  to_numeric_column name df = Ok df' -> columns df' = columns df.
Proof.
  unfold to_numeric_column.
  destruct (has_column name df) eqn:Hh; [|now intros [= <-]].
  destruct (get_series name df) as [vs|e]; cbn [bind]; [|discriminate].
  intros [= <-]. now apply set_series_columns.
Qed.

Lemma coordinate_column_columns (name : text) (df df' : DataFrame P) :
  coordinate_column name df = Ok df' -> columns df' = columns df.
Proof.
  unfold coordinate_column.
  destruct (has_column name df) eqn:Hh; [|now intros [= <-]].
  destruct (get_series name df) as [vs|e]; cbn [bind]; [|discriminate].
  intro Hd. apply dropna_columns in Hd as [-> _].
  now apply set_series_columns.
Qed.









Lemma to_numeric_cell_numeric (c : value P) :
  to_numeric_cell c <> CNaN -> is_numeric (to_numeric_cell c) = true.
Proof.
  intro H. destruct c; cbn in *; try reflexivity; try congruence.
  destruct (parse_number s); [reflexivity|congruence].
Qed.


Lemma has_column_columns (name : text) (df df' : DataFrame P) :
  columns df' = columns df -> has_column name df' = has_column name df.
Proof. intro H. unfold has_column. now rewrite H. Qed.




End Facts.



End PreparedData.

(** ** The end-to-end scenario *)

Module EndToEnd.
Import Interferencias FrameFacts Validation ManualRecovery.


Section Facts.
Context {P : Scalars}.
Variable read_csv : read_csv_args -> option text -> result (DataFrame P).




End Facts.



End EndToEnd.

(* ================================================================== *)
(** * Further properties of the code *)
(* ================================================================== *)

(** ** Lists with indices *)

Module ListFacts.

Lemma enumerate_spec (A : Type) (l : list A) (s i : nat) (x : A) :
  In (i, x) (enumerate s l) <-> s <= i /\ nth_error l (i - s) = Some x.
Proof.
  revert s. induction l as [|y l IH]; intro s; cbn [enumerate In].
  - split; [tauto|]. intros [_ H]. destruct (i - s); discriminate.
  - rewrite IH. split.
    + intros [[= <- <-]|[Hs Hn]].
      * rewrite Nat.sub_diag. split; [lia|reflexivity].
      * split; [lia|]. replace (i - s) with (S (i - S s)) by lia. exact Hn.
    + intros [Hs Hn]. destruct (Nat.eq_dec s i) as [->|Hne].
      * rewrite Nat.sub_diag in Hn. injection Hn as <-. now left.
      * right. split; [lia|].
        replace (i - s) with (S (i - S s)) in Hn by lia. exact Hn.
Qed.

Lemma enumerate_nth (A B : Type) (f : nat * A -> B) (l : list A) (s k : nat)
  (d : B) (a : A) :
  k < length l ->
  nth k (map f (enumerate s l)) d = f (s + k, nth k l a).
Proof.
  revert s k. induction l as [|y l IH]; intros s k H; cbn in H; [lia|].
  destruct k as [|k]; cbn [enumerate map nth].
  - now rewrite Nat.add_0_r.
  - rewrite IH by lia. now rewrite Nat.add_succ_r.
Qed.

Lemma enumerate_fst_from (A : Type) (f : nat * A -> bool) (l : list A) (s : nat) :
  NoDup (map fst (filter f (enumerate s l)))
  /\ forall i, In i (map fst (filter f (enumerate s l))) -> s <= i.
Proof.
  revert s. induction l as [|y l IH]; intro s; cbn [enumerate filter map].
  - split; [constructor|intros ? []].
  - destruct (IH (S s)) as [Hnd Hge]. destruct (f (s, y)); cbn [map fst].
    + split.
      * constructor; [|assumption]. intro Hin. apply Hge in Hin. lia.
      * intros i [<-|Hin]; [lia|]. apply Hge in Hin. lia.
    + split; [assumption|]. intros i Hin. apply Hge in Hin. lia.
Qed.

End ListFacts.

(** ** What the analysis of the dates reports *)

Module DateAnalysis.
Import StrFacts RegexFacts FrameFacts ListFacts.

Lemma sample_field_problems (line_num : nat) (fields : list text)
  (st : sampling) (col : nat * text) :
  snd (sample_field line_num fields st col)
  = snd st ++ problem_at line_num fields col.
Proof.
  unfold sample_field, problem_at. destruct st as [ds ps], col as [i name].
  cbn [fst snd]. destruct (i <? length fields); cbn [andb];
    [|now rewrite app_nil_r].
  destruct (negb (looks_like_date _)); cbn [snd];
    [reflexivity|now rewrite app_nil_r].
Qed.

Lemma sample_fold_problems (line_num : nat) (fields : list text)
  (dcs : list (nat * text)) :
  forall st,
    snd (fold_left (sample_field line_num fields) dcs st)
    = snd st ++ flat_map (problem_at line_num fields) dcs.
Proof.
  induction dcs as [|col dcs IH]; intro st; cbn [fold_left flat_map].
  - now rewrite app_nil_r.
  - now rewrite IH, sample_field_problems, app_assoc.
Qed.

Lemma line_problems_past (n : nat) (dcs : list (nat * text)) (l : list text) :
  forall s, n <= s -> flat_map (line_problems n dcs) (enumerate s l) = [].
Proof.
  induction l as [|x l IH]; intros s H; cbn [enumerate flat_map]; [reflexivity|].
  rewrite IH by lia. unfold line_problems. cbn [fst].
  apply Nat.leb_le in H. now rewrite H.
Qed.

(** The sampling loop with its [break] records the problems of the lines
    numbered below the number of lines of the file. *)
Lemma sample_lines_problems (n : nat) (dcs : list (nat * text)) (l : list text) :
  forall s st,
    snd (sample_lines n dcs (enumerate s l) st)
    = snd st ++ flat_map (line_problems n dcs) (enumerate s l).
Proof.
  induction l as [|x l IH]; intros s st; cbn [enumerate sample_lines flat_map].
  - now rewrite app_nil_r.
  - unfold line_problems at 1. cbn [fst snd].
    destruct (n <=? s) eqn:E.
    + apply Nat.leb_le in E. rewrite line_problems_past by lia.
      now rewrite app_nil_r.
    + rewrite IH, sample_fold_problems. unfold fields_of.
      now rewrite app_assoc.
Qed.

Lemma problem_at_spec (line_num : nat) (fields : list text)
  (col : nat * text) (p : problem) :
  In p (problem_at line_num fields col)
  <-> fst col < length fields
      /\ looks_like_date (nth (fst col) fields []) = false
      /\ p = mkProblem line_num (snd col) (nth (fst col) fields [])
                       (str "No parece fecha").
Proof.
  unfold problem_at. destruct (fst col <? length fields) eqn:E; cbn [andb].
  - apply Nat.ltb_lt in E.
    destruct (looks_like_date (nth (fst col) fields [])); cbn [negb In].
    + split; [tauto|]. intros (_ & H & _). discriminate.
    + split.
      * intros [<-|[]]. auto.
      * intros (_ & _ & ->). now left.
  - apply Nat.ltb_ge in E. cbn [In]. split; [tauto|]. intros [H _]. lia.
Qed.

Lemma sampled_line (lines : list text) (ln : nat) (line : text) :
  In (ln, line) (enumerate 3 (firstn 10 (skipn 2 lines)))
  <-> 3 <= ln <= 12 /\ nth_error lines (ln - 1) = Some line.
Proof.
  rewrite enumerate_spec. split.
  - intros [H3 Hn].
    assert (Hlt : ln - 3 < 10).
    { destruct (Nat.lt_ge_cases (ln - 3) 10) as [H|H]; [assumption|].
      rewrite nth_error_firstn in Hn.
      apply Nat.ltb_ge in H. rewrite H in Hn. discriminate. }
    rewrite nth_error_firstn in Hn.
    apply Nat.ltb_lt in Hlt as Hb. rewrite Hb in Hn.
    rewrite nth_error_skipn in Hn.
    replace (2 + (ln - 3)) with (ln - 1) in Hn by lia.
    split; [lia|assumption].
  - intros [[H3 H12] Hn]. split; [assumption|].
    rewrite nth_error_firstn.
    assert (Hb : (ln - 3 <? 10) = true) by (apply Nat.ltb_lt; lia).
    rewrite Hb, nth_error_skipn.
    now replace (2 + (ln - 3)) with (ln - 1) by lia.
Qed.

(** The triple the analysis returns on a file of two lines or more. *)
Lemma analysis_of_file (content : text) :
  let lines := readlines content in
  let headers := fields_of (nth 1 lines []) in
  let date_columns := find_date_columns headers in
  2 <= length lines ->
  exists log problems,
    analyze_date_problems (Some content)
    = (log, Triple (Some headers) problems date_columns)
    /\ forall p,
         In p problems
         <-> exists ln i name,
               In (i, name) date_columns
               /\ 3 <= ln <= 12 /\ ln < length lines
               /\ i < length (fields_at lines (ln - 1))
               /\ looks_like_date (nth i (fields_at lines (ln - 1)) []) = false
               /\ p = mkProblem ln name (nth i (fields_at lines (ln - 1)) [])
                                (str "No parece fecha").
Proof.
  cbv zeta. intro Hlen. unfold analyze_date_problems.
  apply Nat.ltb_ge in Hlen as Hb. rewrite Hb.
  fold (fields_of (nth 1 (readlines content) [])).
  set (headers := fields_of (nth 1 (readlines content) [])).
  set (dcs := find_date_columns headers).
  pose proof (sample_lines_problems (length (readlines content)) dcs
                (firstn 10 (skipn 2 (readlines content))) 3 ([], [])) as Hs.
  destruct (sample_lines _ _ _ _) as [samples problems]. cbn [snd app] in Hs.
  exists [MsgTotalLines (length (readlines content)); MsgHeaders headers;
          MsgDateColumns dcs; MsgDateSamples samples], problems.
  split; [reflexivity|].
  intro p. rewrite Hs, in_flat_map. split.
  - intros ([ln line] & Hl & Hp). apply sampled_line in Hl as [Hr Hn].
    unfold line_problems in Hp. cbn [fst snd] in Hp.
    destruct (length (readlines content) <=? ln) eqn:E; [destruct Hp|].
    apply Nat.leb_gt in E. apply in_flat_map in Hp as ([i name] & Hc & Hp).
    apply problem_at_spec in Hp as (Hi & Hd & ->). cbn [fst snd] in *.
    assert (El : nth (ln - 1) (readlines content) [] = line)
      by now apply nth_error_nth.
    exists ln, i, name. unfold fields_at. rewrite El. auto 10.
  - intros (ln & i & name & Hc & Hr & Hlt & Hi & Hd & ->).
    exists (ln, nth (ln - 1) (readlines content) []). split.
    + apply sampled_line. split; [assumption|].
      apply nth_error_nth'. lia.
    + unfold line_problems. cbn [fst snd].
      assert (E : (length (readlines content) <=? ln) = false)
        by (apply Nat.leb_gt; lia).
      rewrite E. apply in_flat_map. exists (i, name). split; [assumption|].
      apply problem_at_spec. cbn [fst snd]. auto.
Qed.

(** X1.  On a file of two lines or more the analysis returns, as its
    problems, exactly the fields that do not look like a date among the
    fields under a date column of the lines numbered 3 to 12 (counting from
    1) whose number is below the number of lines of the file: each with its
    line number, the name of the column and the value.  The last line of
    the file is never examined; a file of three lines gives no problem. *)
Theorem problems_reported (content : text) :
  let lines := readlines content in
  let headers := fields_of (nth 1 lines []) in
  let date_columns := find_date_columns headers in
  2 <= length lines ->
  exists log problems,
    analyze_date_problems (Some content)
    = (log, Triple (Some headers) problems date_columns)
    /\ (forall p,
          In p problems
          <-> exists ln i name,
                In (i, name) date_columns
                /\ 3 <= ln <= 12 /\ ln < length lines
                /\ i < length (fields_at lines (ln - 1))
                /\ looks_like_date (nth i (fields_at lines (ln - 1)) []) = false
                /\ p = mkProblem ln name (nth i (fields_at lines (ln - 1)) [])
                                 (str "No parece fecha"))
    /\ (forall p, In p problems -> p_line p <> length lines)
    /\ (length lines = 3 -> problems = []).
Proof.
  cbv zeta. intro Hlen.
  destruct (analysis_of_file content Hlen) as (log & problems & E & Hspec).
  exists log, problems. split; [exact E|]. split; [exact Hspec|]. split.
  - intros p Hp. apply Hspec in Hp as (ln & i & name & _ & _ & Hlt & _ & _ & ->).
    cbn [p_line]. lia.
  - intro H3. destruct problems as [|p ps]; [reflexivity|].
    destruct (proj1 (Hspec p) (or_introl eq_refl))
      as (ln & _ & _ & _ & Hr & Hlt & _). lia.
Qed.

Lemma problems_reported_witness :
  2 <= length (readlines Sample.file_dates)
  /\ exists log problems,
       analyze_date_problems (Some Sample.file_dates)
       = (log, Triple (Some (map str ["SSID"; "FirstSeen"; "AuthMode"]%string))
                 problems [(1, str "FirstSeen")])
       /\ forall p, In p problems -> p_line p <> 5.
Proof.
  assert (H : 2 <= length (readlines Sample.file_dates)) by (vm_compute; lia).
  split; [exact H|].
  destruct (problems_reported Sample.file_dates H)
    as (log & problems & E & _ & Hlast & _).
  exists log, problems. split; [exact E|exact Hlast].
Defined.






End DateAnalysis.

(** ** What the repair of a file keeps and what it changes *)

Module RepairFacts.
Import StrFacts RegexFacts FrameFacts FieldRepair Idempotence ListFacts.

Lemma date_indices_NoDup (lines : list text) : NoDup (date_indices lines).
Proof. unfold date_indices, find_date_columns. apply enumerate_fst_from. Qed.

(** The text the repair writes, read back line by line. *)
Lemma repaired_file_lines (clock : nat -> nat -> datetime) (content : text) :
  let lines := readlines content in
  2 <= length lines ->
  exists written,
    snd (repair_date_issues clock (Some content)) = Ok (Some written)
    /\ length (readlines written) = length lines
    /\ forall k, k < length lines ->
         nth k (readlines written) []
         = repaired_line clock (date_indices lines) (k, nth k lines []) ++ [LF].
Proof.
  cbv zeta. intro Hlen. rewrite repair_date_issues_returns. cbv zeta.
  apply Nat.ltb_ge in Hlen as Hb. rewrite Hb. eexists. split; [reflexivity|].
  rewrite (readlines_write_lines _ (repaired_lines_inline clock _ content)).
  split.
  - now rewrite !length_map, enumerate_length.
  - intros k Hk. rewrite map_map.
    now rewrite (enumerate_nth _ _ _ _ 0 k [] [] Hk).
Qed.

Lemma repaired_line_inline (clock : nat -> nat -> datetime) (content : text)
  (k : nat) :
  k < length (readlines content) ->
  Forall inline
    (repaired_line clock (date_indices (readlines content))
                   (k, nth k (readlines content) [])).
Proof.
  intro Hk.
  pose proof (repaired_lines_inline clock (date_indices (readlines content))
                content) as H.
  rewrite Forall_forall in H. apply H. apply in_map_iff.
  exists (k, nth k (readlines content) []). split; [reflexivity|].
  apply enumerate_spec. split; [lia|]. rewrite Nat.sub_0_r.
  now apply nth_error_nth'.
Qed.

(** X3.  The repair of a file of two lines or more writes as many lines as
    it read, each ended by one line feed; the first two lines (metadata and
    headers) are written as read, up to the whitespace around them. *)
Theorem repair_keeps_lines (clock : nat -> nat -> datetime) (content : text) :
  let lines := readlines content in
  2 <= length lines ->
  exists written,
    snd (repair_date_issues clock (Some content)) = Ok (Some written)
    /\ length (readlines written) = length lines
    /\ (forall k, k < length lines ->
          exists body, nth k (readlines written) [] = body ++ [LF]
                       /\ Forall inline body)
    /\ (forall k, k < 2 ->
          nth k (readlines written) [] = strip (nth k lines []) ++ [LF]).
Proof.
  cbv zeta. intro Hlen.
  destruct (repaired_file_lines clock content Hlen) as (written & E & Hl & Hn).
  exists written. split; [exact E|]. split; [exact Hl|]. split.
  - intros k Hk. rewrite (Hn k Hk). eexists. split; [reflexivity|].
    now apply repaired_line_inline.
  - intros k Hk. rewrite Hn by lia. unfold repaired_line. cbn [fst snd].
    apply Nat.ltb_lt in Hk. now rewrite Hk.
Qed.

Lemma repair_keeps_lines_witness :
  2 <= length (readlines Sample.file_dates)
  /\ exists written,
       snd (repair_date_issues (fun _ _ => Sample.noon) (Some Sample.file_dates))
       = Ok (Some written)
       /\ length (readlines written) = length (readlines Sample.file_dates).
Proof.
  assert (H : 2 <= length (readlines Sample.file_dates)) by (vm_compute; lia).
  split; [exact H|].
  destruct (repair_keeps_lines (fun _ _ => Sample.noon) Sample.file_dates H)
    as (written & E & Hl & _).
  exists written. split; [exact E|exact Hl].
Defined.

(** *** The fields of a repaired line *)

Lemma repaired_fields_length (clock : nat -> nat -> datetime) (i : nat)
  (idxs : list nat) (fs : list text) :
  length (repaired_fields clock i idxs fs) = length fs.
Proof.
  symmetry. eapply Forall2_length. apply repaired_fields_shape.
Qed.

Lemma repaired_field_length (clock : nat -> nat -> datetime) (i : nat)
  (fs : list text) (k : nat) :
  length (repaired_field clock i fs k) = length fs.
Proof.
  unfold repaired_field. destruct (k <? length fs); [|reflexivity].
  apply set_nth_length.
Qed.

Lemma repaired_fields_other (clock : nat -> nat -> datetime) (i : nat)
  (idxs : list nat) (j : nat) :
  ~ In j idxs ->
  forall fs, nth j (repaired_fields clock i idxs fs) [] = nth j fs [].
Proof.
  unfold repaired_fields. induction idxs as [|k idxs IH]; intros Hj fs;
    cbn [fold_left]; [reflexivity|].
  rewrite IH by (intro H; apply Hj; now right).
  unfold repaired_field. destruct (k <? length fs); [|reflexivity].
  apply nth_set_nth_other. intros ->. apply Hj. now left.
Qed.

Lemma repaired_fields_at (clock : nat -> nat -> datetime) (i : nat)
  (idxs : list nat) (j : nat) :
  NoDup idxs -> In j idxs ->
  forall fs, j < length fs ->
    nth j (repaired_fields clock i idxs fs) []
    = repair_date_field (clock i j) (nth j fs []).
Proof.
  unfold repaired_fields. induction idxs as [|k idxs IH]; intros Hnd Hj fs Hlt;
    [destruct Hj|]. cbn [fold_left].
  inversion Hnd as [|? ? Hk Hnd']; subst.
  destruct (Nat.eq_dec k j) as [->|Hne].
  - change (fold_left (repaired_field clock i) idxs (repaired_field clock i fs j))
      with (repaired_fields clock i idxs (repaired_field clock i fs j)).
    rewrite repaired_fields_other by assumption.
    unfold repaired_field. apply Nat.ltb_lt in Hlt as Hb. rewrite Hb.
    now apply nth_set_nth_same.
  - destruct Hj as [Hj|Hj]; [congruence|].
    rewrite IH; [|assumption|assumption|now rewrite repaired_field_length].
    f_equal. unfold repaired_field. destruct (k <? length fs); [|reflexivity].
    now apply nth_set_nth_other.
Qed.

(** The fields of the line written for a data line. *)
Lemma written_fields (clock : nat -> nat -> datetime) (idxs : list nat)
  (k : nat) (line : text) :
  2 <= k ->
  fields_of (repaired_line clock idxs (k, line) ++ [LF])
  = repaired_fields clock k idxs (fields_of line).
Proof.
  intro Hk. unfold repaired_line, fields_of. cbn [fst snd].
  assert (Hb : (k <? 2) = false) by (apply Nat.ltb_ge; lia). rewrite Hb.
  rewrite (strip_app_space _ _ LF_is_space).
  assert (Hbare : bare (join comma
            (repaired_fields clock k idxs (split comma (strip line))))).
  { apply (join_bare (split comma (strip line)));
      [apply repaired_fields_shape|].
    rewrite join_split. apply strip_bare. }
  rewrite (bare_strip _ Hbare).
  apply split_join;
    [apply repaired_fields_not_nil, split_not_nil
    |apply repaired_fields_no_comma].
Qed.

(** X4.  In the file the repair writes, every data line has as many fields
    as the line read; a field under a date column is the repair of the
    field read, and every other field is the field read (the line being
    taken without the whitespace around it). *)
Theorem repair_touches_date_fields_only (clock : nat -> nat -> datetime)
  (content written : text) :
  let lines := readlines content in
  snd (repair_date_issues clock (Some content)) = Ok (Some written) ->
  forall k, 2 <= k < length lines ->
    let fs := fields_at lines k in
    let fs' := fields_at (readlines written) k in
    length fs' = length fs
    /\ (forall j, In j (date_indices lines) -> j < length fs ->
          nth j fs' [] = repair_date_field (clock k j) (nth j fs []))
    /\ (forall j, ~ In j (date_indices lines) -> nth j fs' [] = nth j fs []).
Proof.
  cbv zeta. intros E k [Hk2 Hk].
  assert (Hlen : 2 <= length (readlines content)) by lia.
  destruct (repaired_file_lines clock content Hlen) as (w & Ew & _ & Hn).
  rewrite E in Ew. injection Ew as <-.
  unfold fields_at. rewrite (Hn k Hk), written_fields by assumption.
  split; [apply repaired_fields_length|]. split.
  - intros j Hj Hlt. apply repaired_fields_at;
      [apply date_indices_NoDup|assumption..].
  - intros j Hj. now apply repaired_fields_other.
Qed.

Lemma repair_touches_date_fields_only_witness :
  let clock := fun _ _ : nat => Sample.noon in
  snd (repair_date_issues clock (Some Sample.file_dates))
  = Ok (Some Sample.file_dates_repaired)
  /\ 2 <= 3 < length (readlines Sample.file_dates)
  /\ nth 2 (fields_at (readlines Sample.file_dates_repaired) 3) []
     = nth 2 (fields_at (readlines Sample.file_dates) 3) [].
Proof.
  cbv zeta.
  assert (E : snd (repair_date_issues (fun _ _ => Sample.noon)
                     (Some Sample.file_dates))
              = Ok (Some Sample.file_dates_repaired)) by (vm_compute; reflexivity).
  assert (Hk : 2 <= 3 < length (readlines Sample.file_dates))
    by (vm_compute; lia).
  split; [exact E|]. split; [exact Hk|].
  destruct (repair_touches_date_fields_only (fun _ _ => Sample.noon)
              Sample.file_dates Sample.file_dates_repaired E 3 Hk)
    as (_ & _ & Hother).
  apply Hother. vm_compute. intros [H|[]]. discriminate.
Defined.

(** *** The count of the corrections *)








(** *** Repaired values and the anomaly classifier *)





(** *** The analysis of a repaired file *)



End RepairFacts.

(** ** The names of the files written *)

Module NameFacts.
Import RegexFacts.

Lemma starts_with_head (a : ascii) (old' : text) (c : ascii) (s : text) :
  starts_with (a :: old') (c :: s) = true -> a = c.
Proof. cbn. intro H. apply andb_true_iff in H as [H _]. now apply Ascii.eqb_eq. Qed.

(** A replacement whose new text begins otherwise than the old one leaves
    a text as it is exactly when the old text does not occur in it. *)
Lemma replace_fixed (a b : ascii) (old' new' s : text) :
  a <> b ->
  (replace (a :: old') (b :: new') s = s
   <-> contains (a :: old') s = false).
Proof.
  intro Hab. unfold replace. induction s as [|c s IH].
  - cbn. tauto.
  - cbn [replace_from contains].
    destruct (starts_with (a :: old') (c :: s)) eqn:E.
    + cbn [orb app]. split; [|discriminate].
      intros [= Hb _]. apply starts_with_head in E. congruence.
    + cbn [orb]. rewrite <- IH. split; [now intros [= ->]|now intros ->].
Qed.

Lemma replace_skip (old new l rest : text) :
  replace_from (length l) old new (l ++ rest) = replace_from 0 old new rest.
Proof. induction l as [|c l IH]; [reflexivity|exact IH]. Qed.

Lemma starts_with_app (p u v : text) :
  starts_with p (u ++ v) = true ->
  starts_with p u = true
  \/ exists t, t <> [] /\ p = u ++ t /\ starts_with t v = true.
Proof.
  revert u. induction p as [|a p IH]; intros u H.
  - left. reflexivity.
  - destruct u as [|c u].
    + right. exists (a :: p). repeat split; [discriminate|exact H].
    + cbn in H. apply andb_true_iff in H as [Hac H].
      destruct (IH u H) as [Hu|(t & Hne & -> & Ht)].
      * left. cbn. now rewrite Hac.
      * right. exists t. apply Ascii.eqb_eq in Hac. subst c. auto.
Qed.

(** The first occurrence of an old text that does not overlap itself. *)
Lemma replace_first (a : ascii) (old' new stem rest : text) :
  ~ In a old' ->
  contains (a :: old') stem = false ->
  replace (a :: old') new (stem ++ (a :: old') ++ rest)
  = stem ++ new ++ replace (a :: old') new rest.
Proof.
  intros Ha. unfold replace. induction stem as [|c stem IH]; intro Hc.
  - cbn [app replace_from].
    assert (E : starts_with (a :: old') (a :: old' ++ rest) = true).
    { apply starts_with_spec. now exists rest. }
    rewrite E. cbn [length Nat.sub]. rewrite Nat.sub_0_r.
    now rewrite replace_skip.
  - cbn [contains] in Hc. apply orb_false_iff in Hc as [Hs Hc].
    cbn [app replace_from].
    match goal with
    | |- context [starts_with ?p ?t] => destruct (starts_with p t) eqn:E
    end.
    + change (starts_with (a :: old') ((c :: stem) ++ (a :: old') ++ rest)
              = true) in E.
      apply starts_with_app in E as [E|(t & Hne & Ep & Et)]; [congruence|].
      destruct t as [|x t]; [congruence|].
      apply starts_with_head in Et. subst x.
      injection Ep as _ Ep. exfalso. apply Ha. rewrite Ep.
      apply in_app_iff. right. now left.
    + f_equal. now apply IH.
Qed.

(** X7.  The names [repair_date_issues] (without an output name),
    [create_smart_date_loader] and [analyze_wifi_interference] give the
    files they write are made by replacing ".csv" in the name of the input:
    when ".csv" does not occur in that name (an upper-case extension, no
    extension) each of them is the name of the input itself, so that the
    input is the file written over; it is another name otherwise.  For a
    name that ends in ".csv" and has no other ".csv" the ending becomes
    "_fixed.csv". *)
Theorem output_names (csv_file : text) :
  (DepuradorCli.output_file_of csv_file None = csv_file
   <-> contains (str ".csv") csv_file = false)
  /\ (DepuradorCli.loader_file_of csv_file = csv_file
      <-> contains (str ".csv") csv_file = false)
  /\ (Analisis.output_image_of csv_file = csv_file
      <-> contains (str ".csv") csv_file = false)
  /\ (Analisis.output_report_of csv_file = csv_file
      <-> contains (str ".csv") csv_file = false)
  /\ (forall stem, csv_file = stem ++ str ".csv" ->
        contains (str ".csv") stem = false ->
        DepuradorCli.output_file_of csv_file None = stem ++ str "_fixed.csv"
        /\ DepuradorCli.loader_file_of csv_file = stem ++ str "_smart_loader.py"
        /\ Analisis.output_image_of csv_file = stem ++ str "_analysis.png"
        /\ Analisis.output_report_of csv_file = stem ++ str "_report.txt").
Proof.
  unfold DepuradorCli.output_file_of, DepuradorCli.loader_file_of,
    Analisis.output_image_of, Analisis.output_report_of.
  repeat split; try (apply replace_fixed; discriminate);
    try (intro H; apply replace_fixed in H; [exact H|discriminate]).
  all: subst csv_file;
    rewrite <- (app_nil_r (str ".csv")) at 2;
    rewrite (replace_first "."%char (str "csv") _ stem []);
    [now rewrite app_nil_r| |assumption];
    intros [H|[H|[H|[]]]]; discriminate.
Qed.

(** *** The base name of the survey file *)

Lemma rfind_lower (c : ascii) (s : text) : (-1 <= rfind c s)%Z.
Proof.
  induction s as [|x s IH]; cbn [rfind]; [lia|].
  destruct (Z.leb_spec 0 (rfind c s)); [lia|].
  destruct (Ascii.eqb x c); lia.
Qed.

Lemma rfind_absent (c : ascii) (s : text) :
  (rfind c s < 0)%Z <-> ~ In c s.
Proof.
  induction s as [|x s IH]; cbn [rfind In]; [split; [tauto|lia]|].
  pose proof (rfind_lower c s) as Hl.
  destruct (Z.leb_spec 0 (rfind c s)) as [H|H].
  - split; [lia|]. intro Hn. exfalso.
    assert (Hs : ~ In c s) by tauto. apply IH in Hs. lia.
  - destruct (Ascii.eqb x c) eqn:E.
    + apply Ascii.eqb_eq in E. split; [lia|tauto].
    + apply Ascii.eqb_neq in E. apply IH in H. split; [tauto|lia].
Qed.

Lemma rfind_last (c : ascii) (pre rest : text) :
  ~ In c rest -> rfind c (pre ++ c :: rest) = Z.of_nat (length pre).
Proof.
  intro Hr. induction pre as [|x pre IH]; cbn [app rfind length].
  - apply rfind_absent in Hr.
    destruct (Z.leb_spec 0 (rfind c rest)); [lia|].
    now rewrite Ascii.eqb_refl.
  - rewrite IH.
    destruct (Z.leb_spec 0 (Z.of_nat (length pre))); lia.
Qed.

(** What follows the last occurrence of a character holds it no more. *)
Lemma after_last (c : ascii) (s : text) :
  ~ In c (slice_from (rfind c s + 1) s).
Proof.
  unfold slice_from. induction s as [|x s IH]; cbn [rfind]; [now destruct (Z.to_nat _)|].
  pose proof (rfind_lower c s) as Hl.
  destruct (Z.leb_spec 0 (rfind c s)) as [H|H].
  - replace (Z.to_nat (rfind c s + 1 + 1)) with (S (Z.to_nat (rfind c s + 1)))
      by lia. exact IH.
  - apply rfind_absent in H as Hs. destruct (Ascii.eqb x c) eqn:E.
    + exact Hs.
    + apply Ascii.eqb_neq in E. cbn. intros [Hx|Hx]; [congruence|contradiction].
Qed.

Lemma basename_of (dir rest : text) :
  ~ In "/"%char rest ->
  basename (dir ++ "/"%char :: rest) = rest /\ basename rest = rest.
Proof.
  intro Hr. unfold basename, slice_from. split.
  - rewrite rfind_last by assumption.
    replace (Z.to_nat (Z.of_nat (length dir) + 1)) with (length (dir ++ ["/"%char]))
      by (rewrite length_app; cbn; lia).
    change (dir ++ "/"%char :: rest) with (dir ++ ["/"%char] ++ rest).
    rewrite app_assoc. now rewrite skipn_app, skipn_all, Nat.sub_diag.
  - apply rfind_absent in Hr. pose proof (rfind_lower "/"%char rest).
    now replace (Z.to_nat (rfind "/"%char rest + 1)) with 0 by lia.
Qed.

Lemma splitext_incl (p : text) (c : ascii) : In c (fst (splitext p)) -> In c p.
Proof.
  unfold splitext, slice_to.
  destruct (rfind "/"%char p <? rfind "."%char p)%Z; [|auto].
  destruct (forallb _ _); [auto|]. cbn [fst]. intro H.
  rewrite <- (firstn_skipn (Z.to_nat (rfind "."%char p)) p).
  apply in_app_iff. now left.
Qed.

Lemma nombre_base_no_sep (archivo_csv : text) :
  ~ In "/"%char (Reporte.nombre_base archivo_csv).
Proof.
  unfold Reporte.nombre_base. intro H. apply splitext_incl in H.
  now apply (after_last "/"%char archivo_csv).
Qed.

Lemma splitext_stem (c : ascii) (stem ext : text) :
  c <> "."%char -> ~ In "/"%char (c :: stem ++ "."%char :: ext) ->
  ~ In "."%char ext ->
  splitext (c :: stem ++ "."%char :: ext) = (c :: stem, "."%char :: ext).
Proof.
  intros Hc Hsep Hdot. unfold splitext.
  apply rfind_absent in Hsep.
  pose proof (rfind_lower "/"%char (c :: stem ++ "."%char :: ext)) as Hl.
  assert (Es : rfind "/"%char (c :: stem ++ "."%char :: ext) = (-1)%Z) by lia.
  assert (Ed : rfind "."%char (c :: stem ++ "."%char :: ext)
               = Z.of_nat (length (c :: stem)))
    by (apply (rfind_last "."%char (c :: stem) ext); assumption).
  rewrite Es, Ed.
  assert (Eb : (-1 <? Z.of_nat (length (c :: stem)))%Z = true)
    by (apply Z.ltb_lt; lia).
  rewrite Eb. unfold slice_to, slice_from.
  replace (Z.to_nat (-1 + 1)) with 0 by lia.
  replace (Z.to_nat (Z.of_nat (length (c :: stem)) - (-1 + 1)))
    with (length (c :: stem)) by lia.
  rewrite Nat2Z.id. cbn [skipn].
  change (c :: stem ++ "."%char :: ext) with ((c :: stem) ++ "."%char :: ext).
  rewrite firstn_app, firstn_all, Nat.sub_diag, skipn_app, skipn_all,
    Nat.sub_diag. cbn [firstn skipn app]. rewrite app_nil_r.
  cbn [forallb].
  assert (E : Ascii.eqb "."%char c = false)
    by (apply Ascii.eqb_neq; congruence).
  now rewrite E.
Qed.

(** X18.  The base name [WardrivingAnalyzer] keeps of the survey file, and
    so the names of the heat map, of the location map and of the charts
    that it saves, never hold a "/": these files are written in the current
    directory, wherever the survey is.  For a survey "dir/stem.ext", with
    or without the directory, whose stem does not begin with a dot, the
    base name is the stem, dots inside it included. *)
Theorem nombre_base_spec (archivo_csv : text) :
  ~ In "/"%char (Reporte.nombre_base archivo_csv)
  /\ ~ In "/"%char (Reporte.archivo_mapa_calor archivo_csv)
  /\ ~ In "/"%char (Reporte.archivo_mapa_localizacion archivo_csv)
  /\ ~ In "/"%char (Reporte.archivo_graficos archivo_csv)
  /\ (forall dir c stem ext,
        archivo_csv = dir ++ "/"%char :: c :: stem ++ "."%char :: ext
        \/ archivo_csv = c :: stem ++ "."%char :: ext ->
        c <> "."%char -> ~ In "/"%char (c :: stem) -> ~ In "/"%char ext ->
        ~ In "."%char ext ->
        Reporte.nombre_base archivo_csv = c :: stem
        /\ Reporte.archivo_mapa_calor archivo_csv
           = str "mapa_calor_" ++ c :: stem ++ str ".html").
Proof.
  pose proof (nombre_base_no_sep archivo_csv) as Hn.
  assert (Hname : forall pre post,
            ~ In "/"%char pre -> ~ In "/"%char post ->
            ~ In "/"%char (pre ++ Reporte.nombre_base archivo_csv ++ post)).
  { intros pre post Hpre Hpost H.
    apply in_app_iff in H as [H|H]; [contradiction|].
    apply in_app_iff in H as [H|H]; contradiction. }
  split; [exact Hn|]. split; [|split; [|split]].
  - apply Hname; cbn; intuition discriminate.
  - apply Hname; cbn; intuition discriminate.
  - apply Hname; cbn; intuition discriminate.
  - intros dir c stem ext Hp Hc Hstem Hext Hdot.
    assert (Hrest : ~ In "/"%char (c :: stem ++ "."%char :: ext)).
    { change (c :: stem ++ "."%char :: ext)
        with ((c :: stem) ++ "."%char :: ext).
      intro H. apply in_app_iff in H as [H|[H|H]];
        [contradiction|discriminate|contradiction]. }
    assert (E : Reporte.nombre_base archivo_csv = c :: stem).
    { unfold Reporte.nombre_base.
      destruct (basename_of dir _ Hrest) as [E1 E2].
      destruct Hp as [-> | ->]; [rewrite E1|rewrite E2];
        now rewrite splitext_stem. }
    split; [exact E|]. unfold Reporte.archivo_mapa_calor. now rewrite E.
Qed.

End NameFacts.

(** ** The command line of the repair *)

Module CliFacts.
Import DepuradorCli.

(** X8.  Run on a file that exists and has fewer than two lines, [main]
    ends with a [ValueError] that nothing catches, with or without
    [--solo-analisis]: both branches unpack into three names the pair the
    analysis returns for such a file.  It writes nothing before.  Run on a
    name that does not exist it exits with status 1. *)
Theorem main_short_file (clock : nat -> nat -> datetime) (content : text)
  (args : arguments) :
  length (readlines content) < 2 ->
  snd (main clock true (Some content) args) = Uncaught ValueError
  /\ (forall e, In e (fst (main clock true (Some content) args)) ->
        exists m, e = Printed m)
  /\ (forall file, main clock false file args = ([], Exits 1)).
Proof.
  intro Hlen. unfold main. cbn [negb].
  unfold repair_date_issues.
  rewrite (ShortFiles.analyze_short_file content Hlen).
  split; [|split].
  - now destruct (solo_analisis args).
  - intros e He. destruct (solo_analisis args); cbn [fst] in He;
      apply in_map_iff in He as (m & <- & _); now exists m.
  - reflexivity.
Qed.

Lemma main_short_file_witness :
  let args := mkArguments (str "red.csv") None true false false in
  length (readlines (str "solo una linea")) < 2
  /\ snd (main (fun _ _ => Sample.noon) true (Some (str "solo una linea")) args)
     = Uncaught ValueError.
Proof.
  cbv zeta.
  assert (H : length (readlines (str "solo una linea")) < 2)
    by (vm_compute; lia).
  split; [exact H|].
  exact (proj1 (main_short_file (fun _ _ => Sample.noon) (str "solo una linea")
                  (mkArguments (str "red.csv") None true false false) H)).
Defined.

End CliFacts.

(** ** The frame the interference analysis works on *)

Module AnalysisInput.
Import Interferencias FrameFacts Validation PreparedData.

Section Facts.
Context {P : Scalars}.
Variable read_csv : read_csv_args -> option text -> result (DataFrame P).

Lemma clean_needs_one_column (df df' : DataFrame P) (log : list msg) :
  clean_and_validate_data df = (log, Ok df') ->
  exists i j, positions RSSI (columns df) = [i]
              /\ positions Channel (columns df) = [j].
Proof.
  intro H.
  assert (Hr : has_column RSSI df = true).
  { destruct (has_column RSSI df) eqn:E; [reflexivity|].
    destruct (clean_and_validate_data_raises df (or_introl E)) as [e He].
    rewrite H in He. discriminate. }
  assert (Hc : has_column Channel df = true).
  { destruct (has_column Channel df) eqn:E; [reflexivity|].
    destruct (clean_and_validate_data_raises df (or_intror E)) as [e He].
    rewrite H in He. discriminate. }
  unfold clean_and_validate_data in H. fold RSSI Channel in H.
  rewrite Hr in H.
  destruct (coerce_column RSSI df) as [[df1 n1]|e1] eqn:E1; [|discriminate].
  pose proof (coerce_column_columns _ _ E1) as C1.
  unfold coerce_column in E1.
  destruct (get_series RSSI df) as [vs|e] eqn:G1; [|discriminate].
  apply get_series_has_column in G1 as (i & Hi & _).
  rewrite (has_column_columns Channel df df1 C1), Hc in H.
  destruct (coerce_column Channel df1) as [[df2 n2]|e2] eqn:E2; [|discriminate].
  unfold coerce_column in E2.
  destruct (get_series Channel df1) as [vs'|e] eqn:G2; [|discriminate].
  apply get_series_has_column in G2 as (j & Hj & _). rewrite C1 in Hj.
  now exists i, j.
Qed.

(** The frame cleaning returns has one RSSI and one Channel column, and a
    number in both for every row. *)
Lemma clean_gives_numbers (df df' : DataFrame P) (log : list msg) :
  clean_and_validate_data df = (log, Ok df') ->
  column_holds RSSI numeric_at df' /\ column_holds Channel numeric_at df'.
Proof.
  intro H. destruct (clean_needs_one_column df df' log H) as (i & j & Hi & Hj).
  rewrite (clean_and_validate_data_unique df Hi Hj) in H. cbv zeta in H.
  injection H as _ <-.
  assert (Hij : i <> j)
    by (eapply positions_distinct; [apply RSSI_not_Channel|eassumption..]).
  assert (Hcell : forall k r,
            nth k (coerce_at j (coerce_at i r)) CNaN <> CNaN ->
            k = i \/ k = j ->
            numeric_at k (coerce_at j (coerce_at i r))).
  { intros k r Hna Hk.
    assert (Hlt : k < length r).
    { destruct (Nat.lt_ge_cases k (length r)) as [Hlt|Hge]; [assumption|].
      exfalso. apply Hna. apply nth_overflow.
      unfold coerce_at. now rewrite !set_nth_length. }
    exists (nth k (coerce_at j (coerce_at i r)) CNaN). split.
    - apply nth_error_nth'. unfold coerce_at. now rewrite !set_nth_length.
    - revert Hna. unfold coerce_at. destruct Hk as [-> | ->].
      + rewrite nth_set_nth_other by congruence.
        rewrite nth_set_nth_same by assumption.
        apply to_numeric_cell_numeric.
      + rewrite nth_set_nth_same by now rewrite set_nth_length.
        apply to_numeric_cell_numeric. }
  split; [exists i|exists j]; cbn [columns rows]; (split; [assumption|]);
    intros r' Hr'; apply filter_In in Hr' as [Hr' Hc];
    apply in_map_iff in Hr' as (r1 & <- & Hr1);
    apply in_map_iff in Hr1 as (r & <- & _);
    apply complete_pair in Hc as [Hci Hcj]; apply Hcell; auto.
Qed.

(** X9.  When [analyze_wifi_interference] goes on from loading and
    cleaning to the analysis, the frame it analyses has at least one row,
    exactly one RSSI column and exactly one Channel column, and every row
    has a number that is not missing in both: the analysis never meets an
    empty frame, a text or a missing value in these columns. *)
Theorem analysis_input (file : option text) (log : list msg)
  (df : DataFrame P) :
  analyze_wifi_interference read_csv file = (log, Some df) ->
  0 < length (rows df)
  /\ (exists i, positions RSSI (columns df) = [i]
                /\ forall r, In r (rows df) ->
                   exists c, nth_error r i = Some c /\ is_numeric c = true)
  /\ (exists j, positions Channel (columns df) = [j]
                /\ forall r, In r (rows df) ->
                   exists c, nth_error r j = Some c /\ is_numeric c = true).
Proof.
  unfold analyze_wifi_interference.
  destruct (robust_csv_loader read_csv file) as [log0 [df0|]]; [|discriminate].
  destruct (clean_and_validate_data df0) as [log' [df'|e]] eqn:Ec;
    [|destruct e; discriminate].
  destruct (length (rows df') =? 0) eqn:El; [discriminate|].
  intros [= _ <-]. apply Nat.eqb_neq in El.
  destruct (clean_gives_numbers df0 df' log' Ec) as [Hr Hc].
  split; [lia|]. split; [exact Hr|exact Hc].
Qed.

(** X10.  The loader gives up on a file that opens only when each of the
    four strategies raised and the file has fewer than two lines; on a
    file that does not open, only when each of the four strategies
    raised. *)
Theorem load_failure (file : option text) :
  snd (robust_csv_loader read_csv file) = None
  <-> (forall strategy, In strategy strategies ->
         exists e, read_csv strategy file = Raise e)
      /\ match file with
         | Some content => length (readlines content) < 2
         | None => True
         end.
Proof.
  unfold robust_csv_loader, strategies. cbn [try_strategies].
  split.
  - intro H.
    destruct (read_csv strict_parse file) as [?|e1] eqn:E1; [discriminate|].
    destruct (read_csv lenient_parse file) as [?|e2] eqn:E2; [discriminate|].
    destruct (read_csv text_parse file) as [?|e3] eqn:E3; [discriminate|].
    destruct (read_csv sniffing_parse file) as [?|e4] eqn:E4; [discriminate|].
    split.
    + intros s [<-|[<-|[<-|[<-|[]]]]]; eauto.
    + destruct file as [content|]; [|exact I].
      unfold manual_csv_loader in H.
      destruct (length (readlines content) <? 2) eqn:El;
        [now apply Nat.ltb_lt|].
      destruct (fold_left _ _ _) as [data c]. cbn in H. discriminate.
  - intros [Hall Hfile].
    destruct (Hall strict_parse) as [e1 ->]; [cbn; auto|].
    destruct (Hall lenient_parse) as [e2 ->]; [cbn; auto|].
    destruct (Hall text_parse) as [e3 ->]; [cbn; auto|].
    destruct (Hall sniffing_parse) as [e4 ->]; [cbn; auto 10|].
    cbn. destruct file as [content|]; [|reflexivity].
    unfold manual_csv_loader. apply Nat.ltb_lt in Hfile. now rewrite Hfile.
Qed.

End Facts.

Lemma analysis_input_witness :
  let file := Some (Sample.file_of ["WigleWifi-1.4"; "SSID,RSSI,Channel";
                                    "casa,-55,11"; "cafe,abc,6"]%string) in
  snd (analyze_wifi_interference Sample.plain_read_csv file)
  = Some (@mkFrame Sample.IntScalars (map str ["SSID"; "RSSI"; "Channel"]%string)
            [[CStr (str "casa"); CNum (-55)%Z; CNum 11%Z]])
  /\ exists i, positions RSSI (map str ["SSID"; "RSSI"; "Channel"]%string) = [i].
Proof.
  cbv zeta.
  set (file := Some (Sample.file_of _)).
  set (df := @mkFrame Sample.IntScalars _ _).
  assert (E : analyze_wifi_interference Sample.plain_read_csv file
              = (fst (analyze_wifi_interference Sample.plain_read_csv file),
                 Some df)) by reflexivity.
  split; [now rewrite E|].
  destruct (analysis_input Sample.plain_read_csv file _ df E)
    as (_ & (i & Hi & _) & _).
  now exists i.
Defined.

End AnalysisInput.

(** ** The interference analysis *)

Module AnalysisFacts.
Import Analisis IntOrder.

(** The whole numbers with their order satisfy the laws of the order. *)
Lemma ZOrder_lawful : @lawful Sample.IntScalars ZOrder.
Proof.
  constructor; unfold num_eqb; cbn.
  - intros x y. rewrite !Z.leb_le. lia.
  - intros x y z. rewrite !Z.leb_le. lia.
  - intros a b H. now apply Z.leb_le.
  - intros x y H. apply andb_true_iff in H as [H1 H2].
    apply Z.leb_le in H1, H2. f_equal. lia.
Qed.

Section Facts.
Context {P : Scalars} {O : Order P}.
Hypothesis L : @lawful P O.

Lemma num_eqb_refl (x : number) : num_eqb x x = true.
Proof. unfold num_eqb. now destruct (leb_total L x x) as [-> | ->]. Qed.

Lemma num_eqb_sym (x y : number) : num_eqb x y = num_eqb y x.
Proof. unfold num_eqb. apply andb_comm. Qed.

(** X11.  [classify_signal] never gives the stronger of two signals the
    worse label; an RSSI of -50 or more is "Excelente", one of -60 or more
    at least "Buena", one of -70 or more at least "Regular", one of -80 or
    more at least "Débil". *)
Theorem classify_signal_monotone (x y : number) :
  num_leb x y = true ->
  grade (classify_signal x) <= grade (classify_signal y)
  /\ (num_ge y (-50) = true -> classify_signal y = Excelente)
  /\ (num_ge y (-60) = true -> 3 <= grade (classify_signal y))
  /\ (num_ge y (-70) = true -> 2 <= grade (classify_signal y))
  /\ (num_ge y (-80) = true -> 1 <= grade (classify_signal y)).
Proof.
  intro Hxy. unfold classify_signal, num_ge.
  assert (T : forall c, num_leb (number_of_Z c) x = true ->
                        num_leb (number_of_Z c) y = true).
  { intros c Hc. exact (leb_trans L _ _ _ Hc Hxy). }
  split.
  - destruct (num_leb (number_of_Z (-50)) x) eqn:E1;
      [rewrite (T _ E1); cbn; lia|].
    destruct (num_leb (number_of_Z (-60)) x) eqn:E2;
      [rewrite (T _ E2); destruct (num_leb (number_of_Z (-50)) y); cbn; lia|].
    destruct (num_leb (number_of_Z (-70)) x) eqn:E3;
      [rewrite (T _ E3); destruct (num_leb (number_of_Z (-50)) y),
         (num_leb (number_of_Z (-60)) y); cbn; lia|].
    destruct (num_leb (number_of_Z (-80)) x) eqn:E4;
      [rewrite (T _ E4); destruct (num_leb (number_of_Z (-50)) y),
         (num_leb (number_of_Z (-60)) y), (num_leb (number_of_Z (-70)) y);
       cbn; lia|].
    cbn. lia.
  - repeat split; intros ->;
      try destruct (num_leb (number_of_Z (-50)) y);
      try destruct (num_leb (number_of_Z (-60)) y);
      try destruct (num_leb (number_of_Z (-70)) y); cbn; lia || reflexivity.
Qed.

(** *** The distinct channels *)

Lemma unique_from_incl (seen vs : list number) (x : number) :
  In x (unique_from seen vs) -> In x vs.
Proof.
  revert seen. induction vs as [|v vs IH]; intro seen; cbn [unique_from];
    [tauto|].
  destruct (existsb (num_eqb v) seen).
  - intro H. right. eauto.
  - intros [<-|H]; [now left|right; eauto].
Qed.

Lemma unique_from_covers (seen vs : list number) (x : number) :
  In x vs ->
  existsb (num_eqb x) seen = true
  \/ exists y, In y (unique_from seen vs) /\ num_eqb x y = true.
Proof.
  revert seen. induction vs as [|v vs IH]; intros seen Hx; [destruct Hx|].
  cbn [unique_from]. destruct (existsb (num_eqb v) seen) eqn:E.
  - destruct Hx as [<-|Hx]; [now left|now apply IH].
  - destruct Hx as [<-|Hx].
    + right. exists v. split; [now left|apply num_eqb_refl].
    + destruct (IH (v :: seen) Hx) as [Hs|(y & Hy & Hxy)].
      * cbn [existsb] in Hs. apply orb_true_iff in Hs as [Hs|Hs].
        -- right. exists v. split; [now left|assumption].
        -- now left.
      * right. exists y. split; [now right|assumption].
Qed.

Lemma unique_covers (vs : list number) (x : number) :
  In x vs -> exists y, In y (unique vs) /\ num_eqb x y = true.
Proof.
  intro Hx. destruct (unique_from_covers [] vs x Hx) as [H|H];
    [discriminate|exact H].
Qed.

(** *** The closest channel that overlaps no other *)

Lemma closest_value (c : Z) :
  closest_non_overlap c
  = Some (if (c <=? 3)%Z then 1%Z else if (c <=? 8)%Z then 6%Z else 11%Z).
Proof.
  unfold closest_non_overlap, py_min, non_overlapping. cbn [min_from].
  destruct (Z.leb_spec c 3), (Z.leb_spec c 8);
    repeat match goal with
           | |- context [(?a <? ?b)%Z] => destruct (Z.ltb_spec a b)
           end; try reflexivity; lia.
Qed.

Lemma overlapping_spec (c : Z) :
  overlapping c = true <-> ~ In c non_overlapping.
Proof.
  unfold overlapping, non_overlapping. cbn [existsb In].
  rewrite negb_true_iff, !orb_false_iff, !Z.eqb_neq. lia.
Qed.

(** The two loops that fill [overlapping_issues]. *)
Lemma issues_fold (B : Type) (entry : number -> Z -> Z -> B)
  (step : option (list B) -> number -> option (list B)) :
  (forall st ch,
     step st ch
     = match st with
       | None => None
       | Some acc =>
           match number_to_int ch with
           | None => None
           | Some chi =>
               if overlapping chi then
                 match closest_non_overlap chi with
                 | Some cl => Some (acc ++ [entry ch chi cl])
                 | None => None
                 end
               else Some acc
           end
       end) ->
  forall us acc,
    (forall u, In u us -> number_to_int u <> None) ->
    exists res,
      fold_left step us (Some acc) = Some res
      /\ forall b,
           In b res
           <-> In b acc
               \/ exists u chi cl,
                    In u us /\ number_to_int u = Some chi
                    /\ overlapping chi = true
                    /\ closest_non_overlap chi = Some cl
                    /\ b = entry u chi cl.
Proof.
  intro Hstep. induction us as [|u us IH]; intros acc Hint; cbn [fold_left].
  - exists acc. split; [reflexivity|]. intro b. split; [auto|].
    intros [H|(u & _ & _ & [] & _)]. exact H.
  - rewrite Hstep.
    destruct (number_to_int u) as [chi|] eqn:Eu;
      [|destruct (Hint u (or_introl eq_refl) Eu)].
    assert (Hus : forall v, In v us -> number_to_int v <> None)
      by (intros v Hv; apply Hint; now right).
    destruct (overlapping chi) eqn:Eo.
    + pose proof (closest_value chi) as Ecl0.
      set (cl0 := if (chi <=? 3)%Z then 1%Z
                  else if (chi <=? 8)%Z then 6%Z else 11%Z) in Ecl0.
      rewrite Ecl0.
      destruct (IH (acc ++ [entry u chi cl0]) Hus) as (res & -> & Hres).
      exists res. split; [reflexivity|]. intro b. rewrite Hres, in_app_iff.
      split.
      * intros [[H|[<-|[]]]|(v & c & cl & Hv & Hc)].
        -- now left.
        -- right. exists u, chi, cl0. repeat split; auto. now left.
        -- right. exists v, c, cl. split; [now right|exact Hc].
      * intros [H|(v & c & cl & [<-|Hv] & Ec & Ho & Ecl & ->)].
        -- now left; left.
        -- left. right. left. rewrite Eu in Ec. injection Ec as <-.
           rewrite Ecl0 in Ecl. now injection Ecl as <-.
        -- right. now exists v, c, cl.
    + destruct (IH acc Hus) as (res & -> & Hres).
      exists res. split; [reflexivity|]. intro b. rewrite Hres. split.
      * intros [H|(v & c & cl & Hv & Hc)]; [now left|].
        right. exists v, c, cl. split; [now right|exact Hc].
      * intros [H|(v & c & cl & [<-|Hv] & Ec & Ho & Hrest)]; [now left| |].
        -- rewrite Eu in Ec. injection Ec as <-. congruence.
        -- right. now exists v, c, cl.
Qed.


End Facts.

(** X12.  The channel [min(non_overlapping, key=...)] attributes to a
    channel is 1 up to channel 3, 6 from 4 to 8 and 11 from 9 on: it is one
    of 1, 6 and 11, none of which is closer; for a channel from 1 to 13 it
    is at most two channels away, and every channel of the 5 GHz band (36
    and above) is attributed to channel 11. *)
Theorem closest_non_overlap_spec (c : Z) :
  exists closest,
    closest_non_overlap c = Some closest
    /\ closest = (if (c <=? 3)%Z then 1 else if (c <=? 8)%Z then 6 else 11)%Z
    /\ In closest non_overlapping
    /\ (forall x, In x non_overlapping ->
          (Z.abs (closest - c) <= Z.abs (x - c))%Z)
    /\ ((1 <= c <= 13)%Z -> (Z.abs (c - closest) <= 2)%Z)
    /\ ((36 <= c)%Z -> closest = 11%Z).
Proof.
  eexists. split; [apply closest_value|]. split; [reflexivity|].
  unfold non_overlapping. cbn [In].
  destruct (Z.leb_spec c 3), (Z.leb_spec c 8); repeat split; try lia;
    intros x [<-|[<-|[<-|[]]]]; lia.
Qed.



(** X14.  [analyze_wifi_interference] recommends, among the channels 1, 6
    and 11 and in this order, exactly those that fewer than two networks of
    the frame use: the test that the channel is absent from the column adds
    nothing to the test on its count. *)
Theorem optimal_channels_spec {P : Scalars} {O : Order P}
  (channels : list number) :
  optimal_channels channels
  = filter (fun channel => counts_get channel channels <? 2) non_overlapping
  /\ forall channel,
       In channel (optimal_channels channels)
       <-> In channel non_overlapping /\ counts_get channel channels <= 1.
Proof.
  assert (Habsent : forall c, in_values c channels = false ->
                              counts_get c channels = 0).
  { intros c. unfold in_values, counts_get, count_equal.
    induction channels as [|v vs IH]; cbn [existsb filter]; [reflexivity|].
    intro H. apply orb_false_iff in H as [Hv Hvs].
    rewrite num_eqb_sym, Hv. now apply IH. }
  assert (E : optimal_channels channels
              = filter (fun channel => counts_get channel channels <? 2)
                       non_overlapping).
  { unfold optimal_channels. apply filter_ext. intro c.
    destruct (in_values c channels) eqn:Ei; [reflexivity|].
    now rewrite (Habsent c Ei). }
  split; [exact E|]. intro c. rewrite E, filter_In, Nat.ltb_lt.
  split; intros [H1 H2]; (split; [assumption|lia]).
Qed.

(** *** The channels listed as problematic *)

Lemma insert_desc_In (A : Type) (key : A -> nat) (x y : A) (l : list A) :
  In y (insert_desc key x l) <-> y = x \/ In y l.
Proof.
  induction l as [|z l IH]; cbn [insert_desc In].
  - intuition.
  - destruct (key x <? key z); cbn [In]; [rewrite IH|]; intuition.
Qed.

Lemma insert_desc_length (A : Type) (key : A -> nat) (x : A) (l : list A) :
  length (insert_desc key x l) = S (length l).
Proof.
  induction l as [|z l IH]; cbn [insert_desc length]; [reflexivity|].
  destruct (key x <? key z); cbn [length]; [now rewrite IH|reflexivity].
Qed.

Lemma insert_desc_descending (A : Type) (key : A -> nat) (x : A) (l : list A) :
  descending key l -> descending key (insert_desc key x l).
Proof.
  induction l as [|z l IH]; cbn [insert_desc descending].
  - intros _. split; [intros ? []|exact I].
  - intros [Hz Hl]. destruct (key x <? key z) eqn:E; cbn [descending].
    + apply Nat.ltb_lt in E. split; [|now apply IH].
      intros y Hy. apply insert_desc_In in Hy as [->|Hy]; [lia|auto].
    + apply Nat.ltb_ge in E. split; [|now split].
      intros y [<-|Hy]; [assumption|]. specialize (Hz y Hy). lia.
Qed.

Lemma sort_desc_In (A : Type) (key : A -> nat) (l : list A) (y : A) :
  In y (sort_desc key l) <-> In y l.
Proof.
  unfold sort_desc. induction l as [|x l IH]; cbn [fold_right In]; [tauto|].
  rewrite insert_desc_In, IH. intuition.
Qed.

Lemma sort_desc_length (A : Type) (key : A -> nat) (l : list A) :
  length (sort_desc key l) = length l.
Proof.
  unfold sort_desc. induction l as [|x l IH]; cbn [fold_right length];
    [reflexivity|]. now rewrite insert_desc_length, IH.
Qed.

Lemma sort_desc_descending (A : Type) (key : A -> nat) (l : list A) :
  descending key (sort_desc key l).
Proof.
  unfold sort_desc. induction l as [|x l IH]; cbn [fold_right]; [exact I|].
  now apply insert_desc_descending.
Qed.

Lemma descending_app (A : Type) (key : A -> nat) (a b : list A) :
  descending key (a ++ b) ->
  descending key a /\ forall x y, In x a -> In y b -> key y <= key x.
Proof.
  induction a as [|z a IH]; cbn [app descending].
  - intros _. split; [exact I|intros ? ? []].
  - intros [Hz Hab]. destruct (IH Hab) as [Ha Hdom]. split.
    + split; [|assumption]. intros y Hy. apply Hz, in_app_iff. now left.
    + intros x y [<-|Hx] Hy; [apply Hz, in_app_iff; now right|auto].
Qed.

(** X15.  The channels [generate_comprehensive_analysis] lists as
    problematic are made, like the entries of the analysis, from the
    distinct channels whose whole part is not 1, 6 or 11, each with the
    number of networks on that channel, which is at least 1; at most six
    are listed, by decreasing number of networks, and a channel left out
    has no more networks than any channel listed. *)
Theorem problem_channels_spec {P : Scalars} {O : Order P}
  (channels : list number) :
  @lawful P O ->
  (forall c, In c channels -> number_to_int c <> None) ->
  exists issues top,
    counted_issues channels = Some issues
    /\ problem_channels channels = Some top
    /\ (forall ch cl n,
          In (ch, cl, n) issues ->
          exists c, In c channels /\ number_to_int c = Some ch
                    /\ ~ In ch non_overlapping
                    /\ closest_non_overlap ch = Some cl
                    /\ n = count_equal c channels /\ 1 <= n)
    /\ (forall c ch, In c channels -> number_to_int c = Some ch ->
          ~ In ch non_overlapping ->
          exists cl n, In (ch, cl, n) issues)
    /\ length top = Nat.min 6 (length issues)
    /\ descending snd top
    /\ (forall e, In e top -> In e issues)
    /\ (forall e, In e issues ->
          In e top \/ forall e', In e' top -> snd e <= snd e').
Proof.
  intros L Hint. unfold problem_channels, counted_issues.
  destruct (issues_fold counted_issue
              (fun u chi cl => (chi, cl, count_equal u channels))
              (counted_issue_step channels) (fun _ _ => eq_refl)
              (unique channels) [])
    as (issues & E & Hres).
  { intros u Hu. apply Hint. eapply unique_from_incl; eauto. }
  rewrite E. cbn [option_map].
  exists issues, (firstn 6 (sort_desc snd issues)).
  split; [reflexivity|]. split; [reflexivity|].
  pose proof (sort_desc_descending _ snd issues) as Hd.
  rewrite <- (firstn_skipn 6 (sort_desc snd issues)) in Hd.
  apply descending_app in Hd as [Htop Hdom].
  split; [|split; [|split; [|split; [|split]]]].
  - intros ch cl n H.
    apply Hres in H as [[]|(u & chi & cl' & Hu & Ec & Ho & Ecl & [= -> -> ->])].
    apply unique_from_incl in Hu as Hin.
    exists u. repeat split; auto; [now apply overlapping_spec|].
    unfold count_equal.
    destruct (in_split _ _ Hin) as (l1 & l2 & ->).
    rewrite filter_app, length_app. cbn [filter].
    rewrite (num_eqb_refl L). cbn [length]. lia.
  - intros c ch Hc Ec Ho.
    destruct (unique_covers L channels c Hc) as (y & Hy & Hcy).
    exists (if (ch <=? 3)%Z then 1%Z else if (ch <=? 8)%Z then 6%Z else 11%Z),
      (count_equal y channels).
    apply Hres. right.
    exists y, ch,
      (if (ch <=? 3)%Z then 1%Z else if (ch <=? 8)%Z then 6%Z else 11%Z).
    split; [exact Hy|]. rewrite <- (int_eq L _ _ Hcy).
    split; [exact Ec|]. split; [now apply overlapping_spec|].
    split; [apply closest_value|reflexivity].
  - rewrite length_firstn, sort_desc_length. reflexivity.
  - exact Htop.
  - intros e He. apply (sort_desc_In _ snd).
    rewrite <- (firstn_skipn 6 (sort_desc snd issues)).
    apply in_app_iff. now left.
  - intros e He. apply (sort_desc_In _ snd) in He.
    rewrite <- (firstn_skipn 6 (sort_desc snd issues)) in He.
    apply in_app_iff in He as [He|He]; [now left|right].
    intros e' He'. now apply Hdom.
Qed.

Lemma problem_channels_spec_witness :
  @lawful Sample.IntScalars ZOrder
  /\ @problem_channels Sample.IntScalars ZOrder [6; 3; 36; 3; 11; 9; 3; 9]%Z
     = Some [(3%Z, 1%Z, 3); (9%Z, 11%Z, 2); (36%Z, 11%Z, 1)]
  /\ descending snd [(3%Z, 1%Z, 3); (9%Z, 11%Z, 2); (36%Z, 11%Z, 1)].
Proof.
  split; [exact ZOrder_lawful|].
  assert (E : @problem_channels Sample.IntScalars ZOrder
                [6; 3; 36; 3; 11; 9; 3; 9]%Z
              = Some [(3%Z, 1%Z, 3); (9%Z, 11%Z, 2); (36%Z, 11%Z, 1)])
    by reflexivity.
  split; [exact E|].
  destruct (@problem_channels_spec Sample.IntScalars ZOrder
              [6; 3; 36; 3; 11; 9; 3; 9]%Z ZOrder_lawful)
    as (issues & top & _ & E' & _ & _ & _ & Hd & _).
  - intros c _. discriminate.
  - rewrite E in E'. injection E' as <-. exact Hd.
Defined.

Lemma classify_signal_monotone_witness :
  @lawful Sample.IntScalars ZOrder
  /\ @num_leb Sample.IntScalars ZOrder (-72)%Z (-55)%Z = true
  /\ grade (@classify_signal Sample.IntScalars ZOrder (-72)%Z)
     <= grade (@classify_signal Sample.IntScalars ZOrder (-55)%Z).
Proof.
  split; [exact ZOrder_lawful|]. split; [reflexivity|].
  exact (proj1 (@classify_signal_monotone Sample.IntScalars ZOrder
                  ZOrder_lawful (-72)%Z (-55)%Z eq_refl)).
Defined.

End AnalysisFacts.

(** ** The reports of the geographic analysis *)

Module ReportFacts.
Import Reporte IntOrder.

Section Facts.
Context {P : Scalars} {O : Order P}.
Hypothesis L : @lawful P O.

(** A number falls in exactly one of the four bands of signal quality. *)
Lemma one_band (x : number) :
  (if num_gt x (-65) then 1 else 0)
  + (if num_ge x (-75) && num_le x (-65) then 1 else 0)
  + (if num_ge x (-85) && num_lt x (-75) then 1 else 0)
  + (if num_lt x (-85) then 1 else 0) = 1.
Proof.
  unfold num_gt, num_lt, num_ge, num_le.
  pose proof (@leb_of_Z P O L (-75)%Z (-65)%Z ltac:(lia)) as H1.
  pose proof (@leb_of_Z P O L (-85)%Z (-75)%Z ltac:(lia)) as H2.
  destruct (num_leb x (number_of_Z (-65))) eqn:A,
    (num_leb (number_of_Z (-75)) x) eqn:B,
    (num_leb (number_of_Z (-85)) x) eqn:C; cbn; try reflexivity; exfalso;
    try (rewrite (leb_trans L _ _ _ H2 B) in C; discriminate);
    (destruct (leb_total L x (number_of_Z (-65))) as [H|H]; [congruence|]);
    rewrite (leb_trans L _ _ _ H1 H) in B; discriminate.
Qed.

Lemma bands_of_column (vs : list (value P)) :
  exists excelente buena aceptable debil,
    count_where (compare_cell num_gt (-65)) (to_numeric vs) = Ok excelente
    /\ count_where (both (compare_cell num_ge (-75)) (compare_cell num_le (-65)))
                   (to_numeric vs) = Ok buena
    /\ count_where (both (compare_cell num_ge (-85)) (compare_cell num_lt (-75)))
                   (to_numeric vs) = Ok aceptable
    /\ count_where (compare_cell num_lt (-85)) (to_numeric vs) = Ok debil
    /\ excelente + buena + aceptable + debil + count_na (to_numeric vs)
       = length vs.
Proof.
  unfold to_numeric, count_na.
  induction vs as [|v vs IH]; cbn [map count_where filter length].
  - exists 0, 0, 0, 0. repeat split.
  - destruct IH as (e & b & a & d & -> & -> & -> & -> & Hsum).
    assert (Hnum : forall x,
              exists e' b' a' d',
                Ok (if num_gt x (-65) then S e else e) = Ok e'
                /\ Ok (if num_ge x (-75) && num_le x (-65) then S b else b) = Ok b'
                /\ Ok (if num_ge x (-85) && num_lt x (-75) then S a else a) = Ok a'
                /\ Ok (if num_lt x (-85) then S d else d) = @Ok nat d'
                /\ e' + b' + a' + d'
                   + length (filter isna (map to_numeric_cell vs))
                   = S (length vs)).
    { intro x. eexists _, _, _, _. repeat split.
      pose proof (one_band x) as H1.
      destruct (num_gt x (-65)), (num_ge x (-75) && num_le x (-65)),
        (num_ge x (-85) && num_lt x (-75)), (num_lt x (-85)); cbn in H1; lia. }
    destruct v as [s|x|z|t|]; unfold both; cbn [to_numeric_cell compare_cell isna].
    + destruct (parse_number s) as [x|]; cbn [compare_cell isna];
        [apply Hnum|].
      exists e, b, a, d. cbn [andb length]. repeat split. lia.
    + apply Hnum.
    + apply Hnum.
    + exists e, b, a, d. cbn [andb length]. repeat split. lia.
    + exists e, b, a, d. cbn [andb length]. repeat split. lia.
Qed.

(** X19.  For an RSSI column that went through [pd.to_numeric], as
    [cargar_datos] leaves it, the four counts of the signal quality report
    (excellent, good, acceptable, weak) are computed without error and add
    up to the number of rows whose RSSI is not missing: a row with a number
    is counted in exactly one band, a row without in none, so that the
    percentages printed add up to less than 100 when RSSI values are
    missing. *)
Theorem calidad_partition (vs : list (value P)) :
  exists excelente buena aceptable debil,
    analizar_calidad_senal (to_numeric vs)
    = Ok (excelente, buena, aceptable, debil)
    /\ excelente + buena + aceptable + debil
       = length (to_numeric vs) - count_na (to_numeric vs).
Proof.
  destruct (bands_of_column vs) as (e & b & a & d & E1 & E2 & E3 & E4 & Hsum).
  exists e, b, a, d. unfold analizar_calidad_senal.
  rewrite E1, E2, E3, E4. split; [reflexivity|].
  unfold to_numeric at 1. rewrite length_map. lia.
Qed.

End Facts.

Lemma calidad_partition_witness :
  @lawful Sample.IntScalars ZOrder
  /\ exists excelente buena aceptable debil,
       @analizar_calidad_senal Sample.IntScalars ZOrder
         (to_numeric (map CStr (map str ["-50"; "-70"; "sin dato"; "-90";
                                         "-65"]%string)))
       = Ok (excelente, buena, aceptable, debil)
       /\ excelente + buena + aceptable + debil = 4.
Proof.
  split; [exact AnalysisFacts.ZOrder_lawful|].
  destruct (@calidad_partition Sample.IntScalars ZOrder
              AnalysisFacts.ZOrder_lawful
              (map CStr (map str ["-50"; "-70"; "sin dato"; "-90";
                                  "-65"]%string)))
    as (e & b & a & d & E & Hsum).
  exists e, b, a, d. split; [exact E|]. rewrite Hsum. reflexivity.
Defined.

(** *** The weight of a row in the heat map *)

Import PrimFloat FloatAxioms SpecFloat.

Lemma ltb_leb (x y : float) : ltb x y = true -> leb x y = true.
Proof.
  rewrite ltb_spec, leb_spec. unfold SFltb, SFleb.
  destruct (SFcompare _ _) as [[]|]; congruence.
Qed.

(** X20.  The weight [generar_mapa_calor] gives a row always lies between
    0.1 and 1.0, whatever the RSSI, NaN and the infinities included; a row
    whose RSSI is missing gets the greatest weight, 1.0, since NaN is not
    less than 1.0.  An RSSI of -60 weighs 1.0, one of -80 weighs 0.5, one of
    -100 weighs 0.1. *)
Theorem intensity_bounds (rssi : float) :
  leb tenth (intensity rssi) = true
  /\ leb (intensity rssi) 1%float = true
  /\ intensity nan = 1%float
  /\ intensity (-60)%float = 1%float
  /\ intensity (-80)%float = 0.5%float
  /\ intensity (-100)%float = tenth.
Proof.
  split; [|split; [|repeat split]].
  - unfold intensity, py_max2, py_min2.
    destruct (ltb (div (add rssi 100) 40) 1) eqn:E1; [|reflexivity].
    destruct (ltb tenth (div (add rssi 100) 40)) eqn:E2;
      [now apply ltb_leb|reflexivity].
  - unfold intensity, py_max2, py_min2.
    destruct (ltb (div (add rssi 100) 40) 1) eqn:E1; [|reflexivity].
    destruct (ltb tenth (div (add rssi 100) 40)) eqn:E2;
      [now apply ltb_leb|reflexivity].
Qed.

End ReportFacts.

(** ** The columns of the survey after loading *)

Module SurveyColumns.
Import Wardriving FrameFacts Validation PreparedData FieldRepair.

Section Facts.
Context {P : Scalars}.

Lemma mem_app (n : text) (l1 l2 : list text) :
  mem n (l1 ++ l2) = mem n l1 || mem n l2.
Proof. unfold mem. apply existsb_app. Qed.

Lemma has_column_set_series_any (n name : text) (vs : list (value P))
  (d : DataFrame P) :
  has_column n (set_series name vs d) = has_column n d || text_eqb n name.
Proof.
  unfold set_series, has_column.
  destruct (positions name (columns d)) as [|p ps] eqn:Ep; cbn [columns].
  - rewrite mem_app. cbn. now rewrite orb_false_r.
  - destruct (text_eqb n name) eqn:E; [|now rewrite orb_false_r].
    apply text_eqb_eq in E. subst n.
    destruct (mem name (columns d)) eqn:Em; [reflexivity|].
    apply (positions_nil name d) in Em. congruence.
Qed.

(** Among the aliases of a required column, the column itself is the only
    required name; it is one of them; "Timestamp" is no required name. *)
Lemma alias_facts :
  (forall r a, In r columnas_requeridas -> In a (aliases_of r) ->
               In a columnas_requeridas -> a = r)
  /\ (forall r, In r columnas_requeridas -> In r (aliases_of r))
  /\ ~ In (str "Timestamp") columnas_requeridas.
Proof.
  assert (H1 : forallb (fun r =>
                 forallb (fun a => implb (mem a columnas_requeridas)
                                         (text_eqb a r))
                         (aliases_of r)
                 && mem r (aliases_of r))
               columnas_requeridas = true) by (vm_compute; reflexivity).
  rewrite forallb_forall in H1. split; [|split].
  - intros r a Hr Ha Hreq. specialize (H1 r Hr).
    apply andb_true_iff in H1 as [H1 _]. rewrite forallb_forall in H1.
    specialize (H1 a Ha). apply (proj2 (mem_In _ _)) in Hreq.
    rewrite Hreq in H1. now apply text_eqb_eq.
  - intros r Hr. specialize (H1 r Hr). apply andb_true_iff in H1 as [_ H1].
    now apply mem_In.
  - intro H. apply (proj2 (mem_In _ _)) in H. vm_compute in H. discriminate.
Qed.

Lemma map_column_raised (cols : list text) (log : list msg) (e : exn) :
  fold_left (map_column (P:=P)) cols (log, Raise e) = (log, Raise e).
Proof. induction cols as [|c cols IH]; cbn [fold_left map_column]; auto. Qed.

(** The columns of the frame while the missing columns are mapped: those
    of the frame [d0] the loop started from, and the columns already
    treated one of whose aliases is a column of [d0]. *)
Lemma map_fold_columns (d0 : DataFrame P) (cols : list text) :
  forall done d log log' d',
    NoDup (done ++ cols) ->
    (forall c, In c (done ++ cols) -> In c columnas_requeridas) ->
    (forall n, has_column n d
               = has_column n d0
                 || (mem n done
                     && existsb (fun a => has_column a d0) (aliases_of n))) ->
    fold_left map_column cols (log, Ok d) = (log', Ok d') ->
    forall n, has_column n d'
              = has_column n d0
                || (mem n (done ++ cols)
                    && existsb (fun a => has_column a d0) (aliases_of n)).
Proof.
  destruct alias_facts as (Hreq & _ & _).
  induction cols as [|col cols IH]; intros done d log log' d' Hnd Hin Inv H.
  - cbn in H. injection H as _ <-. now rewrite app_nil_r.
  - cbn [fold_left] in H.
    assert (Hcol : In col columnas_requeridas)
      by (apply Hin, in_app_iff; right; now left).
    assert (Hfresh : ~ In col done).
    { intro Hd. apply NoDup_remove_2 in Hnd. apply Hnd.
      apply in_app_iff. now left. }
    assert (Halias : forall a, In a (aliases_of col) ->
                               has_column a d = has_column a d0).
    { intros a Ha. rewrite Inv.
      destruct (mem a done) eqn:Em; [|now rewrite orb_false_r].
      apply mem_In in Em. exfalso. apply Hfresh.
      assert (a = col) by (apply Hreq; auto; apply Hin, in_app_iff; now left).
      now subst. }
    assert (Hnd' : NoDup ((done ++ [col]) ++ cols))
      by now rewrite <- app_assoc.
    assert (Hin' : forall c, In c ((done ++ [col]) ++ cols) ->
                             In c columnas_requeridas)
      by (intro c; rewrite <- app_assoc; apply Hin).
    assert (Hmem : forall n, mem n (done ++ col :: cols)
                             = mem n ((done ++ [col]) ++ cols))
      by (intro n; now rewrite <- app_assoc).
    intro n. rewrite Hmem.
    unfold map_column in H at 2.
    destruct (find (fun a => has_column a d) (aliases_of col)) as [a|] eqn:Ef.
    + apply find_some in Ef as [Ha Hhas].
      destruct (get_series a d) as [vs|e] eqn:Eg;
        [|rewrite map_column_raised in H; discriminate].
      apply (IH (done ++ [col]) _ _ _ _ Hnd' Hin') with (n := n) in H;
        [exact H|].
      intro m. rewrite has_column_set_series_any, Inv, mem_app. cbn [mem existsb].
      rewrite orb_false_r.
      destruct (text_eqb m col) eqn:Em; [|now rewrite !orb_false_r].
      apply text_eqb_eq in Em. subst m.
      assert (Ex : existsb (fun a => has_column a d0) (aliases_of col) = true).
      { apply existsb_exists. exists a. split; [assumption|].
        now rewrite <- Halias. }
      rewrite Ex. now rewrite !orb_true_r.
    + apply (IH (done ++ [col]) _ _ _ _ Hnd' Hin') with (n := n) in H;
        [exact H|].
      intro m. rewrite Inv, mem_app. cbn [mem existsb]. rewrite orb_false_r.
      destruct (text_eqb m col) eqn:Em; [|now rewrite !orb_false_r].
      apply text_eqb_eq in Em. subst m.
      assert (Ex : existsb (fun a => has_column a d0) (aliases_of col) = false).
      { apply not_true_iff_false. intro Ex.
        apply existsb_exists in Ex as (a & Ha & Hhas).
        rewrite <- Halias in Hhas by assumption.
        apply (find_none _ _ Ef) in Ha. congruence. }
      rewrite Ex. now rewrite !andb_false_r.
Qed.

Lemma preparar_datos_columns (d d' : DataFrame P) :
  preparar_datos d = Ok d' ->
  has_column (str "FirstSeen") d = true
  /\ forall n, has_column n d' = has_column n d || text_eqb n (str "Timestamp").
Proof.
  unfold preparar_datos.
  destruct (get_series (str "FirstSeen") d) as [first_seen|e] eqn:Eg;
    cbn [bind]; [|discriminate].
  set (df1 := set_series (str "Timestamp") _ d).
  destruct (to_int_column _ df1) as [df2|e2] eqn:E2; cbn [bind]; [|congruence].
  destruct (to_int_column _ df2) as [df3|e3] eqn:E3; cbn [bind]; [|congruence].
  destruct (to_numeric_column _ df3) as [df4|e4] eqn:E4;
    cbn [bind]; [|congruence].
  destruct (coordinate_column _ df4) as [df5|e5] eqn:E5;
    cbn [bind]; [|congruence].
  intro E6.
  pose proof (to_int_column_columns _ _ _ E2) as C2.
  pose proof (to_int_column_columns _ _ _ E3) as C3.
  pose proof (to_numeric_column_columns _ _ _ E4) as C4.
  pose proof (coordinate_column_columns _ _ _ E5) as C5.
  pose proof (coordinate_column_columns _ _ _ E6) as C6.
  split.
  - apply get_series_has_column in Eg as (i & Hi & _).
    eapply has_column_of_positions; eauto.
  - intro n. unfold has_column at 1. rewrite C6, C5, C4, C3, C2.
    apply has_column_set_series_any.
Qed.

(** The frame the mapping of the aliases and the preparation start from,
    and what they make of its columns, when loading succeeds. *)
Lemma cargar_datos_columns_of (exists_ : bool) (loaded : result (DataFrame P))
  (log : list msg) (df_final : DataFrame P) :
  cargar_datos exists_ loaded = (log, Some df_final) ->
  exists df0 d,
    loaded = Ok df0
    /\ has_column (str "FirstSeen") d = true
    /\ (forall n, has_column n df_final
                  = has_column n d || text_eqb n (str "Timestamp"))
    /\ forall n,
         has_column n d
         = has_column n (mkFrame (map strip (columns df0)) (rows df0))
           || (mem n (filter
                        (fun col =>
                           negb (has_column col
                                   (mkFrame (map strip (columns df0))
                                            (rows df0))))
                        columnas_requeridas)
               && existsb
                    (fun a => has_column a
                                (mkFrame (map strip (columns df0)) (rows df0)))
                    (aliases_of n)).
Proof.
  unfold cargar_datos. destruct (negb exists_); [discriminate|].
  destruct loaded as [df0|e]; [|discriminate].
  destruct ((length (rows df0) =? 0) || (length (columns df0) =? 0));
    [discriminate|].
  set (df := mkFrame (map strip (columns df0)) (rows df0)).
  set (missing := filter (fun col => negb (has_column col df))
                         columnas_requeridas).
  assert (Hfold : exists log0,
            match missing with
            | [] => ([], Ok df)
            | _ :: _ =>
                fold_left map_column missing
                  ([MsgMissingColumns missing (columns df)], Ok df)
            end = fold_left map_column missing (log0, Ok df)).
  { destruct missing; [now exists []|eexists; reflexivity]. }
  destruct Hfold as [log0 ->].
  destruct (fold_left map_column missing (log0, Ok df)) as [log1 [d|e]] eqn:Ef;
    [|discriminate].
  destruct (preparar_datos d) as [d'|e] eqn:Ep; [|discriminate].
  intros [= _ <-]. exists df0, d. split; [reflexivity|].
  destruct (preparar_datos_columns d d' Ep) as [Hfs Hcols].
  split; [exact Hfs|]. split; [exact Hcols|].
  apply (map_fold_columns df missing [] df log0 log1 d).
  - cbn [app]. subst missing. apply NoDup_filter.
    repeat constructor; cbn; intuition discriminate.
  - intros c Hc. cbn [app] in Hc. subst missing.
    now apply filter_In in Hc.
  - intro n. cbn [mem existsb andb]. now rewrite orb_false_r.
  - exact Ef.
Qed.

(** X17.  When [cargar_datos] succeeds, a required column is a column of
    the frame it leaves exactly when the column itself or one of the
    aliases listed for it is a column of the frame that was read, the
    labels being compared without the whitespace around them; every column
    read is kept, and there is a Timestamp column. *)
Theorem cargar_datos_columns (exists_ : bool) (loaded : result (DataFrame P))
  (log : list msg) (df_final : DataFrame P) :
  cargar_datos exists_ loaded = (log, Some df_final) ->
  exists df0,
    loaded = Ok df0
    /\ let df := mkFrame (map strip (columns df0)) (rows df0) in
       (forall col, In col columnas_requeridas ->
          has_column col df_final
          = existsb (fun a => has_column a df) (aliases_of col))
       /\ (forall name, has_column name df = true ->
             has_column name df_final = true)
       /\ has_column (str "Timestamp") df_final = true.
Proof.
  intro H.
  destruct (cargar_datos_columns_of _ _ _ _ H)
    as (df0 & d & -> & _ & Hfinal & Hd).
  destruct alias_facts as (_ & Hself & Hts).
  exists df0. split; [reflexivity|]. cbv zeta. split; [|split].
  - intros col Hcol. rewrite Hfinal, Hd.
    assert (Et : text_eqb col (str "Timestamp") = false).
    { apply text_eqb_neq. intros ->. contradiction. }
    rewrite Et, orb_false_r.
    set (df := mkFrame _ _).
    destruct (has_column col df) eqn:Eh.
    + cbn [orb]. symmetry. apply existsb_exists. exists col. auto.
    + cbn [orb].
      assert (Em : mem col (filter (fun c => negb (has_column c df))
                                   columnas_requeridas) = true).
      { apply mem_In, filter_In. split; [assumption|now rewrite Eh]. }
      now rewrite Em.
  - intros name Hn. now rewrite Hfinal, Hd, Hn.
  - rewrite Hfinal. assert (E : text_eqb (str "Timestamp") (str "Timestamp") = true)
      by reflexivity. rewrite E. apply orb_true_r.
Qed.

(** X16.  A survey that has no FirstSeen column, nor one of the aliases
    listed for it ("First seen", "firstseen", "Timestamp"), cannot be
    loaded: the conversion of FirstSeen to a timestamp is not guarded as
    the conversions of the other columns are, and [cargar_datos] returns
    [False]. *)
Theorem cargar_datos_needs_first_seen (exists_ : bool) (df0 : DataFrame P) :
  (forall a,
     In a (map str ["FirstSeen"; "First seen"; "firstseen"; "Timestamp"]%string) ->
     has_column a (mkFrame (map strip (columns df0)) (rows df0)) = false) ->
  snd (cargar_datos exists_ (Ok df0)) = None.
Proof.
  intros Hno.
  change (map str ["FirstSeen"; "First seen"; "firstseen"; "Timestamp"]%string)
    with (aliases_of (str "FirstSeen")) in Hno.
  destruct (cargar_datos exists_ (Ok df0)) as [log [df_final|]] eqn:E;
    [|reflexivity].
  exfalso.
  destruct (cargar_datos_columns_of _ _ _ _ E)
    as (df0' & d & [= <-] & Hfs & _ & Hd).
  rewrite Hd in Hfs. apply orb_true_iff in Hfs as [Hfs|Hfs].
  - rewrite Hno in Hfs; [discriminate|]. cbn. auto.
  - apply andb_true_iff in Hfs as [_ Hfs].
    apply existsb_exists in Hfs as (a & Ha & Hhas).
    rewrite (Hno a Ha) in Hhas. discriminate.
Qed.

End Facts.

Lemma cargar_datos_columns_witness :
  let df0 := @mkFrame Sample.IntScalars
               (map str ["ssid"; " Timestamp "; "Signal"]%string)
               [map CStr (map str ["casa"; "2024-03-15 10:30:00"; "-55"]%string)]
  in
  exists df_final,
    snd (cargar_datos true (Ok df0)) = Some df_final
    /\ has_column (str "RSSI") df_final = true
    /\ has_column (str "Channel") df_final = false.
Proof.
  cbv zeta.
  set (df0 := @mkFrame Sample.IntScalars _ _).
  assert (E : exists df_final,
            cargar_datos true (Ok df0)
            = (fst (cargar_datos true (Ok df0)), Some df_final))
    by (eexists; reflexivity).
  destruct E as [df_final E].
  exists df_final. split; [now rewrite E|].
  destruct (cargar_datos_columns true (Ok df0) _ df_final E)
    as (df0' & Edf & Hcols & _).
  injection Edf as <-.
  split.
  - rewrite Hcols; [reflexivity|]. right. right. right. right. now left.
  - rewrite Hcols; [reflexivity|]. right. right. now left.
Defined.

Lemma cargar_datos_needs_first_seen_witness :
  snd (cargar_datos true (Ok Sample.survey)) = None.
Proof.
  apply (cargar_datos_needs_first_seen true Sample.survey).
  intros a Ha. cbn in Ha.
  repeat (destruct Ha as [<-|Ha]; [reflexivity|]). destruct Ha.
Defined.

End SurveyColumns.
